(** * gulp-eslint-new: the utility layer (util.js)

    A shallow embedding of the plugin's utility module: option migration,
    lint-result counting and filtering, the synthesized result for ignored
    files, error wrapping and formatter resolution. *)

From Stdlib Require Import ZArith Ascii String List Lia Sorting.Permutation Sorting.Sorted.
From stdpp Require Import base option list gmap strings fin_maps pretty sorting.

Set Warnings "-register-all,-clear-no-such-hyp".

Local Open Scope string_scope.
Local Open Scope Z_scope.

(** ** JavaScript values

    Plain data as the option objects and lint messages carry it.  An
    object is the finite map of its own string-keyed properties (all
    enumerable; no prototype chain is modelled, so a property lookup that
    misses yields [VUndef]).  A function value is opaque: it is known by a
    name and may carry own properties, like any JavaScript function.
    Numbers are the integers; a string is the sequence of its code units,
    which the characters here stand for. *)

Inductive value : Type :=
| VUndef
| VNull
| VBool (b : bool)
| VNum (n : Z)
| VStr (s : string)
| VArr (items : list value)
| VObj (props : gmap string value)
| VFun (name : string) (props : gmap string value).

(** [typeof v], restricted to the answers the code compares against. *)
Inductive jstype := TUndefined | TObject | TBoolean | TNumber | TString | TFunction.

Definition typeof (v : value) : jstype :=
  match v with
  | VUndef => TUndefined
  | VNull => TObject
  | VBool _ => TBoolean
  | VNum _ => TNumber
  | VStr _ => TString
  | VArr _ => TObject
  | VObj _ => TObject
  | VFun _ _ => TFunction
  end.

(** [!!v]: JavaScript truthiness. *)
Definition truthy (v : value) : bool :=
  match v with
  | VUndef | VNull => false
  | VBool b => b
  | VNum n => negb (n =? 0)
  | VStr s => negb (String.eqb s "")
  | VArr _ | VObj _ | VFun _ _ => true
  end.

(** [v == null]: true of [null] and [undefined] only. *)
Definition nullish (v : value) : bool :=
  match v with
  | VUndef | VNull => true
  | _ => false
  end.

(** [v !== undefined]. *)
Definition defined (v : value) : bool :=
  match v with
  | VUndef => false
  | _ => true
  end.

(** [isObject]: [Object(value) === value]. *)
Definition isObject (v : value) : bool :=
  match v with
  | VArr _ | VObj _ | VFun _ _ => true
  | _ => false
  end.

(** Property read [o.k] on a map of own properties. *)
Definition get (m : gmap string value) (k : string) : value :=
  default VUndef (m !! k).

(** [hasOwn(o, k)]. *)
Definition hasOwn (m : gmap string value) (k : string) : bool :=
  bool_decide (is_Some (m !! k)).

(** [Array.isArray(v)]. *)
Definition isArray (v : value) : bool :=
  match v with
  | VArr _ => true
  | _ => false
  end.

(** The elements of an array ([keys.length], [keys.reduce]). *)
Definition items (v : value) : list value :=
  match v with
  | VArr l => l
  | _ => []
  end.

(** Property read [v.k] on an object, an array or a function.  The arrays
    of this model carry their elements only. *)
Definition getProp (v : value) (k : string) : value :=
  match v with
  | VObj props => get props k
  | VFun _ props => get props k
  | _ => VUndef
  end.

(** ** Exceptions

    What a call can throw: the error built by [throwInvalidOptionError]
    (an [Error] whose [code] is ["ESLINT_INVALID_OPTIONS"]), or the
    [TypeError] of a call to a method that a value does not have. *)

Inductive exn : Type :=
| InvalidOptionsError (message : string)
| TypeError.

Inductive outcome (A : Type) : Type :=
| Ok (a : A)
| Throw (e : exn).
Arguments Ok {A} a.
Arguments Throw {A} e.

#[global] Instance outcome_ret : MRet outcome := @Ok.
#[global] Instance outcome_bind : MBind outcome := fun A B f m =>
  match m with
  | Ok a => f a
  | Throw e => Throw e
  end.
#[global] Instance outcome_fmap : FMap outcome := fun A B f m =>
  match m with
  | Ok a => Ok (f a)
  | Throw e => Throw e
  end.

(** [Array.prototype.reduce] with a callback that may throw. *)
Fixpoint reduceM {A B : Type} (f : B -> A -> outcome B) (l : list A) (acc : B) : outcome B :=
  match l with
  | [] => Ok acc
  | x :: rest => acc' ← f acc x; reduceM f rest acc'
  end.

(** ** Strings *)

(** [s.split(sep)] for a one-character separator: never empty, the empty
    string splits into one empty piece. *)
Fixpoint split (sep : ascii) (s : string) : list string :=
  match s with
  | EmptyString => [EmptyString]
  | String c rest =>
      if Ascii.eqb c sep then EmptyString :: split sep rest
      else match split sep rest with
           | piece :: pieces => String c piece :: pieces
           | [] => [String c EmptyString]
           end
  end.

(** [names.join(sep)]. *)
Definition join (sep : string) (names : list string) : string :=
  String.concat sep names.

Module Options.

(** ** Option migration *)

Definition forbiddenOptions : list string :=
  [ "cache"; "cacheFile"; "cacheLocation"; "cacheStrategy";
    "errorOnUnmatchedPattern"; "extensions"; "globInputPaths" ].

Definition throwInvalidOptionError {A : Type} (message : string) : outcome A :=
  Throw (InvalidOptionsError message).

(** One step of the reduction in [toBooleanMap]: [def] is split at the
    colons, the first piece is the key and the second (when there is one)
    the explicit value.  The entries are strings ([string[]] in the
    documented type); any other entry has no [split] method here. *)
Definition addBooleanEntry (defaultValue : bool)
    (map : gmap string value) (def : value) : outcome (gmap string value) :=
  match def with
  | VStr s =>
      let pieces := split ":" s in
      let key := hd EmptyString pieces in
      let value := tl pieces !! 0%nat in
      if negb (String.eqb key "__proto__") then
        Ok (<[key := VBool (match value with
                            | None => defaultValue
                            | Some v => String.eqb v "true"
                            end)]> map)
      else Ok map
  | _ => Throw TypeError
  end.

Definition toBooleanMap (keys : value) (defaultValue : bool) (displayName : string)
    : outcome value :=
  if truthy keys && negb (isArray keys) then
    throwInvalidOptionError ("Option " ++ displayName ++ " must be an array")
  else if truthy keys && (0 <? length (items keys))%nat then
    VObj <$> reduceM (addBooleanEntry defaultValue) (items keys) ∅
  else Ok VUndef.

(** The two ways [migrateOptions] is called: with a configuration file
    path, or with an options object.  An options object is its own
    string-keyed properties together with the slot under the [ESLintKey]
    symbol ([VUndef] when the slot is not set).  Omitting the argument is
    the call with the object that has no property at all. *)
Inductive rawOptions : Type :=
| ConfigPath (path : string)
| OptionsObject (rawESLint : value) (props : gmap string value).

(** [{ ...v }]: the own enumerable properties of an object; those of an
    array are its elements under their indices. *)
Definition spread (v : value) : gmap string value :=
  match v with
  | VObj props => props
  | VFun _ props => props
  | VArr items => list_to_map (imap (fun i item => (pretty i, item)) items)
  | _ => ∅
  end.

(** The two objects the migration steps work on.  In the source
    [eslintOptions.overrideConfig] is the object [overrideConfig] itself,
    which the steps go on filling; no step reads or deletes the
    [overrideConfig] property of [eslintOptions], so the model keeps the
    two apart and stores the one in the other when the steps are done. *)
Record migration : Type := Migration {
  eslintOptions : gmap string value;
  overrideConfig : gmap string value
}.

(** [migrateOption(oldName, newName, convert)]; the source's defaults,
    [newName = oldName] and the identity for [convert], are written out
    where the function is called. *)
Definition migrateOption (oldName newName : string)
    (convert : value -> outcome value) (st : migration) : outcome migration :=
  let value := get (eslintOptions st) oldName in
  let eslintOptions' := delete oldName (eslintOptions st) in
  if defined value then
    converted ← convert value;
    Ok (Migration eslintOptions' (<[newName := converted]> (overrideConfig st)))
  else Ok (Migration eslintOptions' (overrideConfig st)).

(** The block that renames [configFile] to [overrideConfigFile]. *)
Definition migrateConfigFile (st : migration) : migration :=
  let configFile := get (eslintOptions st) "configFile" in
  let eslintOptions' := delete "configFile" (eslintOptions st) in
  if defined configFile then
    Migration (<["overrideConfigFile" := configFile]> eslintOptions') (overrideConfig st)
  else Migration eslintOptions' (overrideConfig st).

(** [require('eslint').ESLint], the engine's class. *)
Definition engineESLint : value := VFun "ESLint" ∅.

Definition migrateOptions (options : rawOptions) : outcome (gmap string value) :=
  match options with
  | ConfigPath path =>
      Ok {[ "eslintOptions" := VObj {[ "overrideConfigFile" := VStr path ]} ]}
  | OptionsObject rawESLint props =>
      let rawOverrideConfig := get props "overrideConfig" in
      let quiet := get props "quiet" in
      let warnFileIgnored := get props "warnFileIgnored" in
      let rawWarnIgnored := get props "warnIgnored" in
      let eslintOptions :=
        delete "warnIgnored" (delete "warnFileIgnored"
          (delete "quiet" (delete "overrideConfig" props))) in
      let invalidOptions := List.filter (hasOwn props) forbiddenOptions in
      if negb (length invalidOptions =? 0)%nat then
        throwInvalidOptionError ("Invalid options: " ++ join ", " invalidOptions)
      else if negb (nullish rawOverrideConfig)
              && negb (match typeof rawOverrideConfig with TObject => true | _ => false end)
      then throwInvalidOptionError "Option overrideConfig must be an object or null"
      else
        let overrideConfig :=
          if negb (nullish rawOverrideConfig) then spread rawOverrideConfig else ∅ in
        let st := migrateConfigFile (Migration eslintOptions overrideConfig) in
        st ← migrateOption "envs" "env" (fun envs => toBooleanMap envs true "envs") st;
        st ← migrateOption "extends" "extends" Ok st;
        st ← migrateOption "globals" "globals"
               (fun globals => toBooleanMap globals false "globals") st;
        st ← migrateOption "ignorePattern" "ignorePatterns" Ok st;
        st ← migrateOption "parser" "parser" Ok st;
        st ← migrateOption "parserOptions" "parserOptions" Ok st;
        st ← (if isArray (get (Options.eslintOptions st) "plugins")
              then migrateOption "plugins" "plugins" Ok st else Ok st);
        st ← migrateOption "rules" "rules" Ok st;
        let ESLint := if truthy rawESLint then rawESLint else engineESLint in
        let warnIgnored := if defined warnFileIgnored then warnFileIgnored else rawWarnIgnored in
        Ok (<["ESLint" := ESLint]>
             (<["eslintOptions" :=
                  VObj (<["overrideConfig" := VObj (Options.overrideConfig st)]>
                          (Options.eslintOptions st))]>
               (<["quiet" := quiet]> (<["warnIgnored" := warnIgnored]> ∅))))
  end.

(** *** Reading a migration

    The words the statements about [migrateOptions] are made of. *)

(** The reading of one entry of a legacy list, as [addBooleanEntry]
    makes it. *)
Definition entryKey (entry : string) : string := hd EmptyString (split ":" entry).
Definition entryValue (entry : string) : option string := tl (split ":" entry) !! 0%nat.
Definition entryFlag (defaultValue : bool) (entry : string) : bool :=
  match entryValue entry with
  | None => defaultValue
  | Some explicit => String.eqb explicit "true"
  end.

(** No colon in [s]. *)
Definition colonFree (s : string) : Prop := ~ In ":"%char (list_ascii_of_string s).

(** [addBooleanEntry] on an entry that is a string. *)
Definition addEntry (defaultValue : bool) (map : gmap string value) (entry : string)
    : gmap string value :=
  if decide (entryKey entry = "__proto__") then map
  else <[entryKey entry := VBool (entryFlag defaultValue entry)]> map.

Definition isString (v : value) : bool :=
  match v with
  | VStr _ => true
  | _ => false
  end.

(** What [toBooleanMap] converts without throwing: a falsy value, or an
    array of strings. *)
Definition convertible (v : value) : bool :=
  negb (truthy v) || (isArray v && forallb isString (items v)).

Definition isObjectType (t : jstype) : bool :=
  match t with
  | TObject => true
  | _ => false
  end.

(** The options objects that [migrateOptions] migrates without throwing. *)
Definition accepted (props : gmap string value) : bool :=
  forallb (fun option => negb (hasOwn props option)) forbiddenOptions
  && (nullish (get props "overrideConfig")
      || isObjectType (typeof (get props "overrideConfig")))
  && convertible (get props "envs")
  && convertible (get props "globals").

(** The migrated object, as the last statement of [migrateOptions]
    builds it. *)
Definition returnValue (rawESLint : value) (props eo oc : gmap string value)
    : gmap string value :=
  <["ESLint" := if truthy rawESLint then rawESLint else engineESLint]>
    (<["eslintOptions" := VObj (<["overrideConfig" := VObj oc]> eo)]>
      (<["quiet" := get props "quiet"]>
        (<["warnIgnored" := if defined (get props "warnFileIgnored")
                            then get props "warnFileIgnored"
                            else get props "warnIgnored"]> ∅))).

(** The options that are taken out of the engine's options. *)
Definition migratedAway : list string :=
  [ "quiet"; "warnFileIgnored"; "warnIgnored"; "configFile"; "envs"; "extends";
    "globals"; "ignorePattern"; "parser"; "parserOptions"; "rules" ].

(** The messages of the invalid-options errors that are not about
    forbidden options. *)
Definition otherMessages : list string :=
  [ "Option overrideConfig must be an object or null";
    "Option envs must be an array";
    "Option globals must be an array" ].

(** Options for the examples: the two synonyms at odds, and the legacy
    list of globals of the documentation. *)
Definition bothSynonyms : gmap string value :=
  <["warnFileIgnored" := VBool false]> (<["warnIgnored" := VBool true]> ∅).

Definition jQueryGlobals : gmap string value :=
  {[ "globals" := VArr (VStr <$> ["$"; "jQuery:true"]) ]}.

End Options.

(** ** Lint results in the store

    Results, their message arrays and the arrays of results handed to a
    formatter are objects of the JavaScript heap: what a variable holds is
    a reference, and two references to one object see each other's
    writes.  The store maps a reference to the object it denotes. *)

Module Results.

(** A lint message.  The code inspects [severity], [fatal] and [fix];
    every other field ([message], [ruleId], the location, ...) is kept in
    [rest].  The severity is the engine's level: 0, 1 or 2. *)
Record message : Type := Message {
  severity : Z;
  fatal : value;
  fix_ : value;   (* [fix]: the autofix payload, [VUndef] when there is none *)
  rest : gmap string value
}.

Definition loc : Type := positive.

(** A lint result; [messages] refers to the array of its messages and
    [extra] holds the properties the code never names ([source],
    [fixed], ...). *)
Record lintResult : Type := LintResult {
  filePath : string;
  messages : loc;
  errorCount : Z;
  warningCount : Z;
  fixableErrorCount : Z;
  fixableWarningCount : Z;
  fatalErrorCount : Z;
  extra : gmap string value
}.

Inductive cell : Type :=
| MessageArray (elements : list message)
| ResultObject (result : lintResult)
| ResultArray (elements : list loc).

Abbreviation heap := (gmap loc cell).

(** Allocation of a new object: its reference is not in use. *)
Definition alloc (h : heap) (c : cell) : loc * heap :=
  let l := fresh (dom h) in (l, <[l := c]> h).

Definition messagesAt (h : heap) (l : loc) : option (list message) :=
  match h !! l with
  | Some (MessageArray ms) => Some ms
  | _ => None
  end.

Definition resultAt (h : heap) (l : loc) : option lintResult :=
  match h !! l with
  | Some (ResultObject r) => Some r
  | _ => None
  end.

Definition resultsAt (h : heap) (l : loc) : option (list loc) :=
  match h !! l with
  | Some (ResultArray rs) => Some rs
  | _ => None
  end.

Definition isErrorMessage (m : message) : bool := 1 <? severity m.

Definition isWarningMessage (m : message) : bool := severity m =? 1.

(** [Number(b)] for a boolean. *)
Definition Number (b : bool) : Z := if b then 1 else 0.

Definition countErrorMessage (count : Z) (m : message) : Z :=
  count + Number (isErrorMessage m).

Definition countWarningMessage (count : Z) (m : message) : Z :=
  count + Number (isWarningMessage m).

Definition countFixableErrorMessage (count : Z) (m : message) : Z :=
  count + Number (isErrorMessage m && defined (fix_ m)).

Definition countFixableWarningMessage (count : Z) (m : message) : Z :=
  count + Number (isWarningMessage m && defined (fix_ m)).

Definition countFatalErrorMessage (count : Z) (m : message) : Z :=
  count + Number (isErrorMessage m && truthy (fatal m)).

(** [array.reduce(f, init)]. *)
Definition reduce {A B : Type} (f : B -> A -> B) (init : B) (array : list A) : B :=
  fold_left f array init.

(** [array.filter(callback)]: the callback sees the element and its index
    in [array]; the elements kept go, in order, into a new array. *)
Fixpoint filterFrom {A : Type} (callback : A -> nat -> bool) (index : nat)
    (array : list A) : list A :=
  match array with
  | [] => []
  | x :: others =>
      if callback x index then x :: filterFrom callback (S index) others
      else filterFrom callback (S index) others
  end.

(** A message filter as [filterResult] calls it: it is applied to the
    message, its index and the array being filtered, with the result
    being filtered as [this]; it may read the store and answers with any
    value. *)
Definition messageFilter : Type :=
  heap -> loc (* this *) -> message -> nat -> loc (* the array *) -> value.

(** [filterResult(result, filter)].  [None] stands for the [TypeError] of
    a [result] without an array of messages. *)
Definition filterResult (result : loc) (filter : messageFilter) (h : heap)
    : option (loc * heap) :=
  r ← resultAt h result;
  ms ← messagesAt h (messages r);
  let newMessages :=
    filterFrom (fun m i => truthy (filter h result m i (messages r))) 0%nat ms in
  let '(newMessagesRef, h1) := alloc h (MessageArray newMessages) in
  let newResult := {|
    filePath := filePath r;
    messages := newMessagesRef;
    errorCount := reduce countErrorMessage 0 newMessages;
    warningCount := reduce countWarningMessage 0 newMessages;
    fixableErrorCount := reduce countFixableErrorMessage 0 newMessages;
    fixableWarningCount := reduce countFixableWarningMessage 0 newMessages;
    fatalErrorCount := reduce countFatalErrorMessage 0 newMessages;
    extra := extra r
  |} in
  Some (alloc h1 (ResultObject newResult)).

#[global] Instance undefined_dec (v : value) : Decision (v = VUndef).
Proof. destruct v; (by left) || (by right). Defined.

(** The number of messages of a list that satisfy [P]. *)
Definition count (P : message -> Prop) `{forall m, Decision (P m)}
    (ms : list message) : Z :=
  Z.of_nat (length (filter P ms)).

(** What the [quiet] option makes of [filterResult] when it is [true]:
    the filter is [isErrorMessage]. *)
Definition quietFilter : messageFilter :=
  fun _ _ m _ _ => VBool (isErrorMessage m).

(** A store for the examples: the result of one linted file, with a
    syntax error between two fixable warnings. *)
Definition fixableWarning : message :=
  {| severity := 1; fatal := VUndef; fix_ := VObj ∅; rest := ∅ |}.

Definition syntaxError : message :=
  {| severity := 2; fatal := VBool true; fix_ := VUndef; rest := ∅ |}.

Definition linted : lintResult :=
  {| filePath := "/project/src/a.js"; messages := 2%positive;
     errorCount := 1; warningCount := 2;
     fixableErrorCount := 0; fixableWarningCount := 2; fatalErrorCount := 1;
     extra := ∅ |}.

Definition lintedStore : heap :=
  <[1%positive := ResultObject linted]>
    (<[2%positive := MessageArray [fixableWarning; syntaxError; fixableWarning]]> ∅).

(** *** The result for an ignored file *)

Definition slash : ascii := "/"%char.
Definition backslash : ascii := "092"%char.
Definition dot : ascii := "."%char.
Definition quote : string := String "034"%char EmptyString.

(** The character class [[/\\]]. *)
Definition isSeparator (c : ascii) : bool :=
  Ascii.eqb c slash || Ascii.eqb c backslash.

(** [s] starts with [prefix]: what is left of [s] after it. *)
Fixpoint afterPrefix (prefix s : string) : option string :=
  match prefix, s with
  | EmptyString, _ => Some s
  | String a prefix', String b s' =>
      if Ascii.eqb a b then afterPrefix prefix' s' else None
  | String _ _, EmptyString => None
  end.

(** [/(?<![^/\\])\.(?!\.)/u]: a dot that no character other than a
    separator precedes and that no dot follows.  The scan goes through
    the positions of the string; [atBoundary] tells whether the lookbehind
    holds at the current one. *)
Fixpoint hiddenFrom (atBoundary : bool) (s : string) : bool :=
  match s with
  | EmptyString => false
  | String c after =>
      (atBoundary && Ascii.eqb c dot
       && negb (match after with
                | String d _ => Ascii.eqb d dot
                | EmptyString => false
                end))
      || hiddenFrom (isSeparator c) after
  end.

Definition isHiddenRegExp (s : string) : bool := hiddenFrom true s.

(** [/(?<![^/\\])node_modules[/\\]/u]. *)
Fixpoint inNodeModulesFrom (atBoundary : bool) (s : string) : bool :=
  match s with
  | EmptyString => false
  | String c after =>
      (atBoundary
       && match afterPrefix "node_modules" s with
          | Some (String d _) => isSeparator d
          | _ => false
          end)
      || inNodeModulesFrom (isSeparator c) after
  end.

Definition isInNodeModulesRegExp (s : string) : bool := inNodeModulesFrom true s.

Definition hiddenMessage : string :=
  "File ignored by default. Use a negated ignore pattern (like "
  ++ quote ++ "!<relative/path/to/filename>" ++ quote ++ ") to override.".

Definition nodeModulesMessage : string :=
  "File ignored by default. Use a negated ignore pattern like "
  ++ quote ++ "!node_modules/*" ++ quote ++ " to override.".

Definition patternMessage : string :=
  "File ignored because of a matching ignore pattern. Set "
  ++ quote ++ "ignore" ++ quote ++ " option to false to override.".

Section IgnoreResult.

(** [relative] of Node's [path] module: the path from the first
    directory to the second path. *)
Variable relative : string -> string -> string.

Definition ignoreReason (filePath baseDir : string) : string :=
  let relativePath := relative baseDir filePath in
  if isHiddenRegExp relativePath then hiddenMessage
  else if isInNodeModulesRegExp relativePath then nodeModulesMessage
  else patternMessage.

Definition createIgnoreResult (filePath baseDir : string) (h : heap) : loc * heap :=
  let message := ignoreReason filePath baseDir in
  let '(messagesRef, h1) :=
    alloc h (MessageArray
               [ {| fatal := VBool false; severity := 1; fix_ := VUndef;
                    rest := {[ "message" := VStr message ]} |} ]) in
  alloc h1 (ResultObject {|
    filePath := filePath;
    messages := messagesRef;
    errorCount := 0;
    warningCount := 1;
    fixableErrorCount := 0;
    fixableWarningCount := 0;
    fatalErrorCount := 0;
    extra := ∅
  |}).

End IgnoreResult.

(** [path.relative(baseDir, filePath)] on POSIX paths for a file below
    the base directory, both normalised: what follows the directory and
    its slash.  (Any other pair is left as it is; the examples do not use
    one.) *)
Definition relativeBelow (baseDir filePath : string) : string :=
  match afterPrefix (baseDir ++ "/") filePath with
  | Some below => below
  | None => filePath
  end.

(** *** Paths as sequences of segments

    The words of the statements about the reason: the segments of a path
    are what its separators delimit. *)

Fixpoint segments (path : string) : list string :=
  match path with
  | EmptyString => [EmptyString]
  | String c after =>
      if isSeparator c then EmptyString :: segments after
      else match segments after with
           | segment :: others => String c segment :: others
           | [] => [String c EmptyString]
           end
  end.

(** The segments that name a directory: all but the last one. *)
Definition directories (path : string) : list string := removelast (segments path).

Definition startsWithDot (s : string) : bool :=
  match s with
  | String c _ => Ascii.eqb c dot
  | EmptyString => false
  end.

(** A segment that starts with a dot which no second dot follows. *)
Definition hiddenSegment (segment : string) : bool :=
  match segment with
  | String c after => Ascii.eqb c dot && negb (startsWithDot after)
  | EmptyString => false
  end.

(** A segment that starts with a dot and is not [".."]. *)
Definition dotSegment (segment : string) : bool :=
  startsWithDot segment && negb (String.eqb segment "..").

Definition isNodeModules (segment : string) : bool :=
  String.eqb segment "node_modules".

(** No separator in [s]. *)
Definition separatorFree (s : string) : Prop :=
  Forall (fun c => isSeparator c = false) (list_ascii_of_string s).

End Results.

(** ** Errors leaving a stage

    [createPluginError] rests on the constructor of the [PluginError]
    class of the plugin-error package, which is embedded here for the call
    made of it: a plugin name that is a string, and options that are an
    object.  Of an instance, the properties that the wrapping is about
    are kept.  As for every object of this model, the properties of a
    plain object are data properties of its own. *)

Module Errors.

(** An instance of the [PluginError] class of the plugin-error package,
    by the properties that say what it wraps: the name of the plugin, the
    message and the [showStack] flag. *)
Record pluginError : Type := {
  plugin : value;
  message : value;
  showStack : value
}.

(** What a handler can throw or reject with, and so what
    [createPluginError] can be given: an instance of [PluginError]; an
    instance of [Error] that is not one, known by what its [message]
    reads; or any other value. *)
Inductive thrown : Type :=
| Tagged (error : pluginError)
| ErrorObject (message : value)
| Other (v : value).

(** [error instanceof PluginError]. *)
Definition isPluginError (error : thrown) : bool :=
  match error with
  | Tagged _ => true
  | _ => false
  end.

(** What a call can throw here: a plain [Error] with a message, or the
    [TypeError] of the engine for a property access on [null]. *)
Inductive failure : Type :=
| PlainError (message : string)
| PlainTypeError.

Inductive completion (A : Type) : Type :=
| Returned (a : A)
| Thrown (e : failure).
Arguments Returned {A} a.
Arguments Thrown {A} e.

(** What [opts.error] is to the constructor: with
    [typeof opts.error === 'object'] the properties of [opts.error], its
    [message] among them, are copied to the instance, which is a
    [TypeError] on [null]; any other [opts.error] is not looked at. *)
Inductive details : Type :=
| NoDetails
| NullDetails
| Details (message : value).

Definition detailsOf (error : value) : details :=
  match error with
  | VNull => NullDetails
  | VObj props => Details (get props "message")
  | VArr _ => Details VUndef
  | _ => NoDetails
  end.

(** [setDefaults(plugin, message, options)] of the package, for a
    [plugin] that is a string and [options] that is an object: the own
    properties of the options made, other than [error], and what [error]
    is.  An [Error] becomes the [error] of the [options] given; any other
    object is taken for the options itself, in the place of the ones
    given (the own enumerable properties of an array are its indices);
    any other value becomes the [message] of the [options] given.  Then
    [plugin] is set, and [showStack] and [showProperties] get their
    defaults where they are missing. *)
Definition setDefaults (plugin : string) (message : thrown)
    (options : gmap string value) : completion (gmap string value * details) :=
  let chosen :=
    match message with
    | Tagged e => Returned (options, Details (Errors.message e))
    | ErrorObject m => Returned (options, Details m)
    | Other VNull => Thrown PlainTypeError
    | Other (VObj props) => Returned (props, detailsOf (get props "error"))
    | Other (VArr _) => Returned (∅, NoDetails)
    | Other v => Returned (<["message" := v]> options, detailsOf (get options "error"))
    end in
  match chosen with
  | Returned (opts, error) =>
      Returned (delete "error" (<["plugin" := VStr plugin]> opts)
                  ∪ {[ "showStack" := VBool false; "showProperties" := VBool true ]},
                error)
  | Thrown e => Thrown e
  end.

(** [new PluginError(plugin, message, options)].  The properties of
    [opts.error] are copied first, then the ones the options have
    themselves; an instance without a [message] of its own reads the
    empty one of [Error.prototype].  The instance must end with a truthy
    [plugin] and a truthy [message]: otherwise the constructor throws a
    plain [Error]. *)
Definition newPluginError (plugin : string) (message : thrown)
    (options : gmap string value) : completion pluginError :=
  match setDefaults plugin message options with
  | Thrown e => Thrown e
  | Returned (_, NullDetails) => Thrown PlainTypeError
  | Returned (opts, error) =>
      let copied := match error with Details m => Some m | _ => None end in
      let own := match opts !! "message" with Some m => Some m | None => copied end in
      let this := {| plugin := get opts "plugin";
                     message := default (VStr EmptyString) own;
                     showStack := get opts "showStack" |} in
      if negb (truthy (Errors.plugin this)) then Thrown (PlainError "Missing plugin name")
      else if negb (truthy (Errors.message this))
           then Thrown (PlainError "Missing error message")
           else Returned this
  end.

Definition createPluginError (error : thrown) : completion pluginError :=
  match error with
  | Tagged e => Returned e
  | _ =>
      let error :=
        match error with
        | Other v => if nullish v then Other (VStr "Unknown Error") else error
        | _ => error
        end in
      newPluginError "gulp-eslint-new" error {[ "showStack" := VBool true ]}
  end.

(** How the handler that [awaitHandler] awaits ends: its promise is
    fulfilled, or it throws or rejects with some value. *)
Inductive settled : Type :=
| Fulfilled
| Rejected (reason : thrown).

(** How [awaitHandler] ends: with the call [done(error)] or
    [done(null, data)], or, when [createPluginError] throws inside the
    [catch] block, with no call of [done] and its own promise rejected. *)
Inductive ending (A : Type) : Type :=
| DoneError (error : pluginError)
| DoneData (data : A)
| PromiseRejected (reason : failure).
Arguments DoneError {A} error.
Arguments DoneData {A} data.
Arguments PromiseRejected {A} reason.

Definition awaitHandler {A : Type} (handler : settled) (data : A) : ending A :=
  match handler with
  | Rejected err =>
      match createPluginError err with
      | Returned error => DoneError error
      | Thrown reason => PromiseRejected reason
      end
  | Fulfilled => DoneData data
  end.

End Errors.

(** ** Formatters *)

Module Formatter.
Import Results.

Definition compareResultsByFilePath (result1 result2 : lintResult) : Z :=
  if (filePath result2 <? filePath result1)%string then 1
  else if (filePath result1 <? filePath result2)%string then -1
  else 0.

(** [array.sort(compare)]: the elements are rearranged in the array
    itself, and elements that compare equal keep their order.  [insertInOrder]
    puts [x], which came before every element of [sorted], into place. *)
Fixpoint insertInOrder {A : Type} (compare : A -> A -> Z) (x : A) (sorted : list A) : list A :=
  match sorted with
  | [] => [x]
  | y :: others =>
      if 0 <? compare x y then y :: insertInOrder compare x others
      else x :: y :: others
  end.

Definition sort {A : Type} (compare : A -> A -> Z) (array : list A) : list A :=
  foldr (insertInOrder compare) [] array.

(** What a formatter function does with its two arguments once called:
    it returns its output, after reading [context.rulesMeta] and
    [context.cwd] as often as it likes.  The array of results it reads
    in the store it is started with. *)
Inductive formatting : Type :=
| Return (output : value)
| ReadRulesMeta (next : value -> formatting)
| ReadCwd (next : string -> formatting).

(** The [rulesMeta] property of the context object: the accessor of the
    object literal, or the data property that [defineProperty] puts in
    its place. *)
Inductive rulesMetaProperty : Type :=
| Getter
| DataProperty (v : value).

Record context : Type := Context {
  cwd : string;
  rulesMeta : rulesMetaProperty
}.

(** What [resolveFormatter] returns: the formatter it was given, the
    object whose [format] wraps a formatter function (a closure over
    [cwd], [eslint] and [formatter]), or what the engine's
    [loadFormatter] makes of the reference. *)
Inductive loadedFormatter : Type :=
| Given (formatter : value)
| Wrapper (cwd : string) (formatter : value)
| LoadFormatter (nameOrPath : value).

Definition resolveFormatter (cwd : string) (formatter : value) : loadedFormatter :=
  if isObject formatter
     && match typeof (getProp formatter "format") with TFunction => true | _ => false end
  then Given formatter
  else match typeof formatter with
       | TFunction => Wrapper cwd formatter
       | _ => LoadFormatter formatter
       end.

Section Engine.

(** [eslint.getRulesMetaForResults(results)], of the engine: what it
    answers for the array [results] in a store. *)
Variable getRulesMetaForResults : heap -> loc -> value.

(** The body of a function value called as [formatter(results, context)]. *)
Variable body : value -> heap -> loc -> formatting.

(** The call of the formatter function, with the context object and
    the number of [getRulesMetaForResults] calls made so far as state. *)
Fixpoint call (h : heap) (results : loc) (todo : formatting)
    (ctx : context) (lookups : nat) : value * context * nat :=
  match todo with
  | Return output => (output, ctx, lookups)
  | ReadCwd next => call h results (next (cwd ctx)) ctx lookups
  | ReadRulesMeta next =>
      match rulesMeta ctx with
      | Getter =>
          let rulesMeta := getRulesMetaForResults h results in
          call h results (next rulesMeta)
            {| cwd := cwd ctx; rulesMeta := DataProperty rulesMeta |} (S lookups)
      | DataProperty rulesMeta => call h results (next rulesMeta) ctx lookups
      end
  end.

(** [results.sort(compareResultsByFilePath)] on the array at [results]:
    the comparison reads the [filePath] of the two results it is given.
    [None] when an element is not a result. *)
Definition sortResults (results : loc) (h : heap) : option heap :=
  refs ← resultsAt h results;
  objects ← mapM (fun ref => pair ref <$> resultAt h ref) refs;
  let sorted := sort (fun a b => compareResultsByFilePath a.2 b.2) objects in
  Some (<[results := ResultArray (sorted.*1)]> h).

(** [format(results)] of the wrapper object. *)
Definition format (cwd : string) (formatter : value) (results : loc)
    (h : heap) (lookups : nat) : option (value * heap * nat) :=
  h' ← sortResults results h;
  let '(output, _, lookups') :=
    call h' results (body formatter h' results)
      {| cwd := cwd; rulesMeta := Getter |} lookups in
  Some (output, h', lookups').

End Engine.

(** *** Reading a formatter call

    What a formatter function returns when every read of
    [context.rulesMeta] gives [rulesMeta] and every read of [context.cwd]
    gives [cwd], and whether it reads [context.rulesMeta] at all. *)

Fixpoint answer (rulesMeta : value) (cwd : string) (todo : formatting) : value :=
  match todo with
  | Return output => output
  | ReadRulesMeta next => answer rulesMeta cwd (next rulesMeta)
  | ReadCwd next => answer rulesMeta cwd (next cwd)
  end.

Fixpoint readsRulesMeta (cwd : string) (todo : formatting) : bool :=
  match todo with
  | Return _ => false
  | ReadRulesMeta _ => true
  | ReadCwd next => readsRulesMeta cwd (next cwd)
  end.

(** The comparison [compareResultsByFilePath] makes, on elements known
    by a key, and the order it sorts into. *)
Definition byKey {A : Type} (key : A -> string) (a b : A) : Z :=
  if (key b <? key a)%string then 1
  else if (key a <? key b)%string then -1
  else 0.

Definition keyOrdered {A : Type} (key : A -> string) (a b : A) : Prop :=
  (key a <=? key b)%string = true.

(** The file path of the result a reference denotes. *)
Definition pathAt (h : heap) (ref : loc) : string :=
  from_option filePath EmptyString (resultAt h ref).

(** A store for the examples: the results of two files, and the array
    that lists them in the order they were linted. *)
Definition clean : lintResult :=
  {| filePath := "/project/lib/b.js"; messages := 4%positive;
     errorCount := 0; warningCount := 0;
     fixableErrorCount := 0; fixableWarningCount := 0; fatalErrorCount := 0;
     extra := ∅ |}.

Definition collected : heap :=
  <[5%positive := ResultArray [1%positive; 3%positive]]>
    (<[3%positive := ResultObject clean]>
      (<[4%positive := MessageArray []]> lintedStore)).

(** A formatter function that reads the rules' metadata twice and the
    working directory once, and returns the three as an array. *)
Definition metaTwice : value -> heap -> loc -> formatting :=
  fun _ _ _ =>
    ReadRulesMeta (fun first =>
      ReadCwd (fun cwd =>
        ReadRulesMeta (fun second =>
          Return (VArr [first; VStr cwd; second])))).

End Formatter.

(** ** Further definitions for the migration of the options *)

Module Migrated.
Import Options.

(** The object the legacy options are stored into before any of them
    is: the copy of the [overrideConfig] given, or the empty object. *)
Definition configBase (props : gmap string value) : gmap string value :=
  if negb (nullish (get props "overrideConfig"))
  then spread (get props "overrideConfig") else ∅.

(** The value of a property that a step sets when the option is defined
    and leaves as it was when it is not. *)
Definition overlay (given : value) (before : option value) : option value :=
  if defined given then Some given else before.

(** The names of [overrideConfig] that the migration can set. *)
Definition targets : list string :=
  [ "env"; "extends"; "globals"; "ignorePatterns"; "parser"; "parserOptions";
    "plugins"; "rules" ].

(** The options that [migrateOptions] reads, removes or sets. *)
Definition special : list string :=
  [ "overrideConfig"; "quiet"; "warnFileIgnored"; "warnIgnored"; "configFile";
    "overrideConfigFile"; "envs"; "extends"; "globals"; "ignorePattern";
    "parser"; "parserOptions"; "plugins"; "rules" ].

(** Options with [rules] both as a legacy option and in
    [overrideConfig]. *)
Definition rulesOverConfig : gmap string value :=
  <["rules" := VObj {[ "semi" := VNum 2 ]}]>
    (<["overrideConfig" := VObj (<["rules" := VObj {[ "semi" := VNum 0 ]}]>
                                   (<["root" := VBool true]> ∅))]> ∅).

(** Options with [envs: null] beside an [overrideConfig] that has an
    [env]. *)
Definition envsNull : gmap string value :=
  <["envs" := VNull]>
    (<["overrideConfig" := VObj {[ "env" := VObj {[ "browser" := VBool true ]} ]}]> ∅).

End Migrated.

(** ** Writing the formatted results *)

Module Writer.
Import Results.

(** What [resolveWriter] returns: the writer it was given (or
    [fancyLog]), or the new function [write.bind(writer)] of a stream. *)
Inductive writerFunction : Type :=
| Itself (writer : value)
| BoundWrite (write : value) (stream : value).

Section FancyLog.

(** [require('fancy-log')], the default writer. *)
Variable fancyLog : value.

Definition resolveWriter (writer : value) : writerFunction :=
  let writer := if defined writer then writer else fancyLog in
  if isObject writer then
    let write := getProp writer "write" in
    match typeof write with
    | TFunction => BoundWrite write writer
    | _ => Itself writer
    end
  else Itself writer.

End FancyLog.

(** [!!writer]: a bound function is an object. *)
Definition truthyWriter (writer : writerFunction) : bool :=
  match writer with
  | BoundWrite _ _ => true
  | Itself v => truthy v
  end.

(** Whether [writer(message)] is a call of a function. *)
Definition callable (writer : writerFunction) : bool :=
  match writer with
  | BoundWrite _ _ => true
  | Itself v => match typeof v with TFunction => true | _ => false end
  end.

(** [message !== ''] fails for the empty string only. *)
Definition isEmptyString (v : value) : bool :=
  match v with
  | VStr s => String.eqb s EmptyString
  | _ => false
  end.

(** A call [writer(message)]. *)
Inductive written : Type :=
| Written (writer : writerFunction) (message : value).

(** [writeResults(results, formatterObj, writer)], with the [format] of
    the formatter object as a function of the array, the store and the
    number of engine lookups so far, and the calls of the writer as
    outcome.  [None] is the exception of a [format] that fails or of a
    truthy writer that is not a function. *)
Definition writeResults
    (format : loc -> heap -> nat -> option (value * heap * nat))
    (results : loc) (writer : writerFunction) (h : heap) (lookups : nat)
    : option (list written * heap * nat) :=
  '(message, h', lookups') ← format results h lookups;
  if truthyWriter writer && negb (nullish message) && negb (isEmptyString message) then
    if callable writer then Some ([Written writer message], h', lookups') else None
  else Some ([], h', lookups').

End Writer.

(** * Properties *)

Module OptionsFacts.
Import Options.

Example migrate_config_path :
  migrateOptions (ConfigPath "cfg.json")
  = Ok {[ "eslintOptions" := VObj {[ "overrideConfigFile" := VStr "cfg.json" ]} ]}.
Proof. reflexivity. Qed.

Lemma migrateOption_inv oldName newName convert st st' :
  migrateOption oldName newName convert st = Ok st' ->
  eslintOptions st' = delete oldName (eslintOptions st)
  /\ (if defined (get (eslintOptions st) oldName)
      then exists converted,
             convert (get (eslintOptions st) oldName) = Ok converted
             /\ overrideConfig st' = <[newName := converted]> (overrideConfig st)
      else overrideConfig st' = overrideConfig st).
Proof.
  unfold migrateOption. destruct (defined _).
  - destruct (convert _) as [converted|e] eqn:E; simpl; [|discriminate].
    intros [= <-]. simpl. split; [reflexivity|]. exists converted. split; reflexivity.
  - intros [= <-]. simpl. split; reflexivity.
Qed.

Lemma migrateOption_options oldName newName convert st st' key :
  migrateOption oldName newName convert st = Ok st' ->
  eslintOptions st' !! key
  = if decide (oldName = key) then None else eslintOptions st !! key.
Proof.
  intros H. apply migrateOption_inv in H as [-> _]. apply lookup_delete.
Qed.

Lemma migrateOption_config_other oldName newName convert st st' key :
  migrateOption oldName newName convert st = Ok st' ->
  newName <> key ->
  overrideConfig st' !! key = overrideConfig st !! key.
Proof.
  intros H Hne. apply migrateOption_inv in H as [_ H].
  destruct (defined _).
  - destruct H as (converted & _ & ->). by rewrite lookup_insert_ne.
  - by rewrite H.
Qed.

Lemma migrateOption_config_set oldName newName convert st st' :
  migrateOption oldName newName convert st = Ok st' ->
  defined (get (eslintOptions st) oldName) = true ->
  exists converted,
    convert (get (eslintOptions st) oldName) = Ok converted
    /\ overrideConfig st' !! newName = Some converted.
Proof.
  intros H Hdef. apply migrateOption_inv in H as [_ H]. rewrite Hdef in H.
  destruct H as (converted & Hc & ->). exists converted.
  split; [done|]. apply lookup_insert_eq.
Qed.

Lemma migrateOption_total oldName newName convert st :
  (defined (get (eslintOptions st) oldName) = true ->
   exists converted, convert (get (eslintOptions st) oldName) = Ok converted) ->
  exists st', migrateOption oldName newName convert st = Ok st'.
Proof.
  intros H. unfold migrateOption. destruct (defined _).
  - destruct H as [converted ->]; [done|]. simpl. eauto.
  - eauto.
Qed.

Lemma migrateOption_throw oldName newName convert st e :
  migrateOption oldName newName convert st = Throw e ->
  convert (get (eslintOptions st) oldName) = Throw e.
Proof.
  unfold migrateOption. destruct (defined _); [|discriminate].
  destruct (convert _); simpl; congruence.
Qed.

Lemma migrateConfigFile_options st key :
  key <> "configFile" -> key <> "overrideConfigFile" ->
  eslintOptions (migrateConfigFile st) !! key = eslintOptions st !! key.
Proof.
  intros H1 H2. unfold migrateConfigFile. destruct (defined _); simpl.
  - rewrite lookup_insert_ne by done. by rewrite lookup_delete_ne.
  - by rewrite lookup_delete_ne.
Qed.

Lemma migrateConfigFile_gone st :
  eslintOptions (migrateConfigFile st) !! "configFile" = None.
Proof.
  unfold migrateConfigFile. destruct (defined _); simpl.
  - rewrite lookup_insert_ne by done. apply lookup_delete_eq.
  - apply lookup_delete_eq.
Qed.

End OptionsFacts.

Module BooleanMapFacts.
Import Options.

Lemma split_colonFree s : colonFree s -> split ":" s = [s].
Proof.
  induction s as [|c s IH]; [done|].
  unfold colonFree. simpl. intros H.
  destruct (Ascii.eqb_spec c ":") as [->|Hc]; [tauto|].
  rewrite IH; [done|]. unfold colonFree. tauto.
Qed.

Lemma split_append key after :
  colonFree key ->
  split ":" (key ++ String ":" after) = key :: split ":" after.
Proof.
  induction key as [|c key IH]; simpl.
  - done.
  - unfold colonFree. simpl. intros H.
    destruct (Ascii.eqb_spec c ":") as [->|Hc]; [tauto|].
    rewrite IH; [done|]. unfold colonFree. tauto.
Qed.

Lemma entry_bare key :
  colonFree key -> entryKey key = key /\ entryValue key = None.
Proof. intros H. unfold entryKey, entryValue. by rewrite split_colonFree. Qed.

Lemma entry_explicit key explicit :
  colonFree key -> colonFree explicit ->
  entryKey (key ++ ":" ++ explicit) = key
  /\ entryValue (key ++ ":" ++ explicit) = Some explicit.
Proof.
  intros Hk He. unfold entryKey, entryValue.
  change (key ++ ":" ++ explicit) with (key ++ String ":" explicit).
  rewrite split_append by done. by rewrite split_colonFree.
Qed.

Lemma addBooleanEntry_string d map entry :
  addBooleanEntry d map (VStr entry) = Ok (addEntry d map entry).
Proof.
  unfold addBooleanEntry, addEntry, entryFlag, entryValue, entryKey.
  destruct (String.eqb_spec (hd EmptyString (split ":" entry)) "__proto__") as [Heq|Hne]; simpl.
  - by rewrite decide_True.
  - by rewrite decide_False.
Qed.

Lemma reduceM_strings d entries acc :
  reduceM (addBooleanEntry d) (VStr <$> entries) acc
  = Ok (foldl (addEntry d) acc entries).
Proof.
  revert acc. induction entries as [|e entries IH]; intros acc; [done|].
  rewrite fmap_cons. cbn [reduceM]. rewrite addBooleanEntry_string. apply IH.
Qed.

Lemma foldl_addEntry_proto d entries acc :
  foldl (addEntry d) acc entries !! "__proto__" = acc !! "__proto__".
Proof.
  revert acc. induction entries as [|e entries IH]; intros acc; simpl; [done|].
  rewrite IH. unfold addEntry. case_decide; [done|]. by rewrite lookup_insert_ne.
Qed.

Lemma foldl_addEntry_lookup d entries acc key :
  key <> "__proto__" ->
  foldl (addEntry d) acc entries !! key
  = match last (filter (fun e => entryKey e = key) entries) with
    | Some e => Some (VBool (entryFlag d e))
    | None => acc !! key
    end.
Proof.
  intros Hkey. revert acc.
  induction entries as [|e entries IH]; intros acc; simpl; [done|].
  rewrite IH. rewrite filter_cons. case_decide as He.
  - rewrite last_cons. destruct (last _); [done|].
    unfold addEntry. rewrite decide_False by congruence.
    rewrite He. apply lookup_insert_eq.
  - destruct (last _); [done|].
    unfold addEntry. case_decide; [done|]. by rewrite lookup_insert_ne.
Qed.

Lemma strings_of_values l :
  forallb isString l = true -> exists entries, l = VStr <$> entries.
Proof.
  induction l as [|v l IH]; simpl.
  - by exists [].
  - destruct v; simpl; try done. intros [entries ->]%IH. by exists (s :: entries).
Qed.

Lemma toBooleanMap_strings entries d name :
  toBooleanMap (VArr (VStr <$> entries)) d name
  = Ok (match entries with
        | [] => VUndef
        | _ => VObj (foldl (addEntry d) ∅ entries)
        end).
Proof.
  unfold toBooleanMap. simpl. destruct entries as [|e entries]; [done|].
  change (items (VArr (VStr <$> e :: entries))) with (VStr <$> (e :: entries)).
  rewrite reduceM_strings. done.
Qed.

Lemma toBooleanMap_convertible v d name :
  convertible v = true -> exists converted, toBooleanMap v d name = Ok converted.
Proof.
  unfold convertible. destruct (truthy v) eqn:Ht; simpl.
  - destruct v; try done. simpl. intros [entries ->]%strings_of_values.
    rewrite toBooleanMap_strings. eauto.
  - intros _. unfold toBooleanMap. rewrite Ht. simpl. eauto.
Qed.

Lemma reduceM_throw d l acc e :
  reduceM (addBooleanEntry d) l acc = Throw e -> e = TypeError.
Proof.
  revert acc. induction l as [|v l IH]; intros acc; simpl; [done|].
  destruct (addBooleanEntry d acc v) as [acc'|e'] eqn:E; simpl.
  - apply IH.
  - intros [= <-]. unfold addBooleanEntry in E. destruct v; try congruence.
    by destruct (negb _).
Qed.

Lemma toBooleanMap_throw v d name e :
  toBooleanMap v d name = Throw e ->
  e = InvalidOptionsError ("Option " ++ name ++ " must be an array") \/ e = TypeError.
Proof.
  unfold toBooleanMap. destruct (truthy v && negb (isArray v)).
  - intros [= <-]. by left.
  - destruct (truthy v && _); [|done].
    destruct (reduceM _ _ _) eqn:E; simpl; [done|].
    intros [= <-]. right. by eapply reduceM_throw.
Qed.

End BooleanMapFacts.

Module MigrationFacts.
Import Options OptionsFacts BooleanMapFacts.

Lemma filter_nil_forallb {A} (p : A -> bool) l :
  List.filter p l = [] <-> forallb (fun x => negb (p x)) l = true.
Proof.
  induction l as [|x l IH]; simpl; [done|].
  destruct (p x); simpl; [split; discriminate | exact IH].
Qed.

(** Case analysis on the next [migrateOption] call of the sequence. *)
Tactic Notation "next_step" ident(st) ident(H) :=
  match goal with
  | |- context [mbind _ (migrateOption ?o ?n ?c ?s)] =>
      destruct (migrateOption o n c s) as [st|] eqn:H; cbn [mbind outcome_bind]
  end.

(** A lookup in the options after the step [H]: [None] for the option the
    step migrates, the lookup before the step for any other. *)
Ltac options_before H :=
  rewrite (migrateOption_options _ _ _ _ _ _ H);
  first [ rewrite decide_True by done; reflexivity
        | rewrite decide_False by done ].

(** A lookup in [overrideConfig] after the step [H], under a name the
    step does not set. *)
Ltac config_before H :=
  rewrite (migrateOption_config_other _ _ _ _ _ _ H) by done.

Lemma initial_options props oc key :
  key ∉ ["overrideConfig"; "quiet"; "warnFileIgnored"; "warnIgnored";
         "configFile"; "overrideConfigFile"] ->
  eslintOptions
    (migrateConfigFile
       (Migration (delete "warnIgnored" (delete "warnFileIgnored"
                     (delete "quiet" (delete "overrideConfig" props)))) oc)) !! key
  = props !! key.
Proof.
  rewrite !not_elem_of_cons. intros (? & ? & ? & ? & ? & ? & _).
  rewrite migrateConfigFile_options by done. simpl.
  by rewrite !lookup_delete_ne by done.
Qed.

Lemma initial_options_gone props oc key :
  key ∈ ["quiet"; "warnFileIgnored"; "warnIgnored"; "configFile"] ->
  eslintOptions
    (migrateConfigFile
       (Migration (delete "warnIgnored" (delete "warnFileIgnored"
                     (delete "quiet" (delete "overrideConfig" props)))) oc)) !! key
  = None.
Proof.
  rewrite !elem_of_cons, elem_of_nil. intros [->|[->|[->|[->|[]]]]];
    try apply migrateConfigFile_gone;
    rewrite migrateConfigFile_options by done; simpl;
    rewrite ?lookup_delete_ne by done; apply lookup_delete_eq.
Qed.

Lemma migrateOptions_Ok rawESLint props ret :
  migrateOptions (OptionsObject rawESLint props) = Ok ret ->
  exists eo oc,
    ret = returnValue rawESLint props eo oc
    /\ List.filter (hasOwn props) forbiddenOptions = []
    /\ (nullish (get props "overrideConfig")
        || isObjectType (typeof (get props "overrideConfig"))) = true
    /\ Forall (fun name => eo !! name = None) migratedAway
    /\ (defined (get props "envs") = true ->
        exists converted, toBooleanMap (get props "envs") true "envs" = Ok converted
                          /\ oc !! "env" = Some converted)
    /\ (defined (get props "globals") = true ->
        exists converted, toBooleanMap (get props "globals") false "globals" = Ok converted
                          /\ oc !! "globals" = Some converted).
Proof.
  unfold migrateOptions.
  destruct (List.filter (hasOwn props) forbiddenOptions) as [|bad others] eqn:Hbad;
    [|discriminate].
  cbn [length Nat.eqb negb].
  destruct (negb (nullish _) && negb _) eqn:Hconfig; [discriminate|].
  set (st0 := migrateConfigFile _).
  next_step st1 H1; [|discriminate].
  next_step st2 H2; [|discriminate].
  next_step st3 H3; [|discriminate].
  next_step st4 H4; [|discriminate].
  next_step st5 H5; [|discriminate].
  next_step st6 H6; [|discriminate].
  destruct (if isArray _ then _ else _) as [st7|] eqn:H7; [|discriminate].
  cbn [mbind outcome_bind].
  next_step st8 H8; [|discriminate].
  intros [= <-]. exists (eslintOptions st8), (overrideConfig st8).
  assert (Hst7 : forall key, key <> "plugins" ->
            eslintOptions st7 !! key = eslintOptions st6 !! key).
  { intros key Hkey. revert H7. destruct (isArray _); intros H7.
    - by options_before H7.
    - by injection H7 as ->. }
  assert (Hoc7 : forall key, key <> "plugins" ->
            overrideConfig st7 !! key = overrideConfig st6 !! key).
  { intros key Hkey. revert H7. destruct (isArray _); intros H7.
    - by config_before H7.
    - by injection H7 as ->. }
  split; [reflexivity|]. split; [reflexivity|]. split; [|split; [|split]].
  - destruct (nullish _); [done|]. simpl in *. unfold isObjectType.
    by destruct (typeof _).
  - unfold migratedAway. repeat apply Forall_cons_2; try apply Forall_nil_2;
      options_before H8; rewrite Hst7 by done;
      options_before H6; options_before H5; options_before H4;
      options_before H3; options_before H2; options_before H1;
      apply initial_options_gone; set_solver.
  - intros Hdef.
    destruct (migrateOption_config_set _ _ _ _ _ H1) as (converted & Hc & Hoc).
    { unfold get. subst st0. by rewrite initial_options by set_solver. }
    unfold get in Hc. subst st0. rewrite initial_options in Hc by set_solver.
    exists converted. split; [done|].
    config_before H8. rewrite Hoc7 by done.
    config_before H6. config_before H5. config_before H4.
    config_before H3. config_before H2. done.
  - intros Hdef.
    assert (Hg : get (eslintOptions st2) "globals" = get props "globals").
    { unfold get. options_before H2. options_before H1.
      subst st0. by rewrite initial_options by set_solver. }
    destruct (migrateOption_config_set _ _ _ _ _ H3) as (converted & Hc & Hoc).
    { by rewrite Hg. }
    rewrite Hg in Hc.
    exists converted. split; [done|].
    config_before H8. rewrite Hoc7 by done.
    config_before H6. config_before H5. config_before H4. done.
Qed.

End MigrationFacts.

Module MigrationOutcomes.
Import Options OptionsFacts BooleanMapFacts MigrationFacts.

Lemma migrateOptions_total rawESLint props :
  accepted props = true ->
  exists ret, migrateOptions (OptionsObject rawESLint props) = Ok ret.
Proof.
  unfold accepted. rewrite !andb_true_iff.
  intros [[[Hbad Hoc] Henvs] Hglobals].
  apply filter_nil_forallb in Hbad.
  unfold migrateOptions. rewrite Hbad. cbn [length Nat.eqb negb].
  replace (negb (nullish (get props "overrideConfig")) && _) with false; cycle 1.
  { destruct (nullish _); simpl in *; [done|]. unfold isObjectType in Hoc.
    by destruct (typeof _). }
  set (st0 := migrateConfigFile _).
  assert (Hid : forall o n st, exists st', migrateOption o n Ok st = Ok st').
  { intros o n st. apply migrateOption_total. eauto. }
  next_step st1 H1; cycle 1.
  { destruct (migrateOption_total "envs" "env"
                (fun envs => toBooleanMap envs true "envs") st0) as [st1 H]; [|congruence].
    intros _. unfold get. subst st0. rewrite initial_options by set_solver.
    by apply toBooleanMap_convertible. }
  next_step st2 H2; [|destruct (Hid "extends" "extends" st1); congruence].
  next_step st3 H3; cycle 1.
  { destruct (migrateOption_total "globals" "globals"
                (fun globals => toBooleanMap globals false "globals") st2) as [st3 H];
      [|congruence].
    intros _. unfold get. options_before H2. options_before H1.
    subst st0. rewrite initial_options by set_solver.
    by apply toBooleanMap_convertible. }
  next_step st4 H4; [|destruct (Hid "ignorePattern" "ignorePatterns" st3); congruence].
  next_step st5 H5; [|destruct (Hid "parser" "parser" st4); congruence].
  next_step st6 H6; [|destruct (Hid "parserOptions" "parserOptions" st5); congruence].
  destruct (Hid "plugins" "plugins" st6) as [st7 H7].
  destruct (isArray _); [rewrite H7|]; cbn [mbind outcome_bind].
  - next_step st8 H8; [eauto|destruct (Hid "rules" "rules" st7); congruence].
  - next_step st8 H8; [eauto|destruct (Hid "rules" "rules" st6); congruence].
Qed.

Lemma reduceM_Ok_strings d l acc map :
  reduceM (addBooleanEntry d) l acc = Ok map -> forallb isString l = true.
Proof.
  revert acc. induction l as [|v l IH]; intros acc; simpl; [done|].
  destruct v; simpl; try discriminate.
  destruct (negb _); simpl; apply IH.
Qed.

Lemma toBooleanMap_Ok_convertible v d name converted :
  toBooleanMap v d name = Ok converted -> convertible v = true.
Proof.
  unfold toBooleanMap, convertible.
  destruct (truthy v); simpl; [|done].
  destruct (isArray v) eqn:Harray; simpl; [|discriminate].
  destruct v as [| |b|n|s|l|m|f m]; try discriminate. simpl.
  destruct (0 <? length l)%nat eqn:Hlen.
  - destruct (reduceM _ _ _) as [map|] eqn:E; simpl; [|discriminate].
    intros _. by eapply reduceM_Ok_strings.
  - destruct l; [done|discriminate].
Qed.

(** [accepted] is exact: the options objects it holds of are the ones
    migrated without an exception. *)
Lemma accepted_exact rawESLint props :
  accepted props = true
  <-> exists ret, migrateOptions (OptionsObject rawESLint props) = Ok ret.
Proof.
  split; [apply migrateOptions_total|].
  intros [ret Hret].
  destruct (migrateOptions_Ok _ _ _ Hret)
    as (eo & oc & _ & Hbad & Hconfig & _ & Henvs & Hglobals).
  unfold accepted. rewrite !andb_true_iff. repeat split.
  - by apply filter_nil_forallb.
  - exact Hconfig.
  - destruct (defined (get props "envs")) eqn:Hdef.
    + destruct Henvs as (converted & Hc & _); [done|].
      by eapply toBooleanMap_Ok_convertible.
    + by destruct (get props "envs").
  - destruct (defined (get props "globals")) eqn:Hdef.
    + destruct Hglobals as (converted & Hc & _); [done|].
      by eapply toBooleanMap_Ok_convertible.
    + by destruct (get props "globals").
Qed.

Lemma migrateOptions_Throw rawESLint props e :
  migrateOptions (OptionsObject rawESLint props) = Throw e ->
  let names := List.filter (hasOwn props) forbiddenOptions in
  (names <> [] /\ e = InvalidOptionsError ("Invalid options: " ++ join ", " names))
  \/ (names = []
      /\ (e = TypeError \/ exists message, e = InvalidOptionsError message
                                           /\ message ∈ otherMessages)).
Proof.
  unfold migrateOptions.
  destruct (List.filter (hasOwn props) forbiddenOptions) as [|bad others] eqn:Hbad.
  2:{ cbn [length Nat.eqb negb]. intros [= <-]. by left. }
  cbn [length Nat.eqb negb]. intros H. right. split; [done|]. revert H.
  destruct (negb (nullish _) && negb _).
  { intros [= <-]. right. eexists. split; [done|]. unfold otherMessages. set_solver. }
  set (st0 := migrateConfigFile _).
  assert (Hid : forall o n st, migrateOption o n Ok st <> Throw e).
  { intros o n st H%migrateOption_throw. done. }
  assert (Hlist : forall o n d st,
            migrateOption o n (fun v => toBooleanMap v d o) st = Throw e ->
            o ∈ ["envs"; "globals"] ->
            e = TypeError \/ exists message, e = InvalidOptionsError message
                                             /\ message ∈ otherMessages).
  { intros o n d st H%migrateOption_throw Ho.
    apply toBooleanMap_throw in H as [->| ->]; [right|by left].
    eexists. split; [done|]. unfold otherMessages.
    rewrite !elem_of_cons, elem_of_nil in Ho. destruct Ho as [->|[->|[]]]; set_solver. }
  next_step st1 H1; [|intros [= ->]; eapply Hlist; [exact H1|set_solver]].
  next_step st2 H2; [|intros [= ->]; by apply Hid in H2].
  next_step st3 H3; [|intros [= ->]; eapply Hlist; [exact H3|set_solver]].
  next_step st4 H4; [|intros [= ->]; by apply Hid in H4].
  next_step st5 H5; [|intros [= ->]; by apply Hid in H5].
  next_step st6 H6; [|intros [= ->]; by apply Hid in H6].
  destruct (if isArray _ then _ else _) as [st7|] eqn:H7; cbn [mbind outcome_bind].
  2:{ intros [= ->]. destruct (isArray _); [by apply Hid in H7|done]. }
  next_step st8 H8; [done|intros [= ->]; by apply Hid in H8].
Qed.

End MigrationOutcomes.

Module OptionsSpec.
Import Options OptionsFacts BooleanMapFacts MigrationFacts MigrationOutcomes.

Lemma migrateOptions_accepted rawESLint props :
  accepted props = true ->
  exists eo oc,
    migrateOptions (OptionsObject rawESLint props) = Ok (returnValue rawESLint props eo oc)
    /\ Forall (fun name => eo !! name = None) migratedAway
    /\ (defined (get props "envs") = true ->
        exists converted, toBooleanMap (get props "envs") true "envs" = Ok converted
                          /\ oc !! "env" = Some converted)
    /\ (defined (get props "globals") = true ->
        exists converted, toBooleanMap (get props "globals") false "globals" = Ok converted
                          /\ oc !! "globals" = Some converted).
Proof.
  intros Hacc. destruct (migrateOptions_total rawESLint props Hacc) as [ret Hret].
  destruct (migrateOptions_Ok _ _ _ Hret)
    as (eo & oc & -> & _ & _ & Haway & Henvs & Hglobals).
  by exists eo, oc.
Qed.

Lemma returnValue_warnIgnored rawESLint props eo oc :
  returnValue rawESLint props eo oc !! "warnIgnored"
  = Some (if defined (get props "warnFileIgnored")
          then get props "warnFileIgnored" else get props "warnIgnored").
Proof.
  unfold returnValue. rewrite !lookup_insert_ne by done. apply lookup_insert_eq.
Qed.

Lemma returnValue_eslintOptions rawESLint props eo oc :
  returnValue rawESLint props eo oc !! "eslintOptions"
  = Some (VObj (<["overrideConfig" := VObj oc]> eo)).
Proof.
  unfold returnValue. rewrite lookup_insert_ne by done. apply lookup_insert_eq.
Qed.

Lemma returnValue_keys rawESLint props eo oc key :
  key ∉ ["ESLint"; "eslintOptions"; "quiet"; "warnIgnored"] ->
  returnValue rawESLint props eo oc !! key = None.
Proof.
  intros Hkey. unfold returnValue.
  rewrite !lookup_insert_ne; [done|intros <-; apply Hkey; set_solver..].
Qed.

(** C1, as amended: an options object that [migrateOptions] accepts
    comes back with exactly one of the two synonyms, [warnIgnored], and
    neither of them is left among the engine's options.  When both
    [warnFileIgnored] and [warnIgnored] are defined, the value surfaced is
    the one of the legacy name, [warnFileIgnored]; when one of them is
    defined, it is that one's value; when none is, it is [undefined]. *)
Theorem warnIgnored_reconciled (rawESLint : value) (props : gmap string value) :
  accepted props = true ->
  exists ret eo surfaced,
    migrateOptions (OptionsObject rawESLint props) = Ok ret
    /\ ret !! "warnIgnored" = Some surfaced
    /\ ret !! "warnFileIgnored" = None
    /\ ret !! "eslintOptions" = Some (VObj eo)
    /\ eo !! "warnIgnored" = None
    /\ eo !! "warnFileIgnored" = None
    /\ (defined (get props "warnFileIgnored") = true ->
        defined (get props "warnIgnored") = true ->
        surfaced = get props "warnFileIgnored")
    /\ (defined (get props "warnFileIgnored") = true ->
        get props "warnIgnored" = VUndef ->
        surfaced = get props "warnFileIgnored")
    /\ (get props "warnFileIgnored" = VUndef ->
        defined (get props "warnIgnored") = true ->
        surfaced = get props "warnIgnored")
    /\ (get props "warnFileIgnored" = VUndef ->
        get props "warnIgnored" = VUndef ->
        surfaced = VUndef).
Proof.
  intros Hacc.
  destruct (migrateOptions_accepted rawESLint props Hacc) as (eo & oc & Hret & Haway & _).
  eexists _, _, _. split; [exact Hret|].
  split; [apply returnValue_warnIgnored|].
  split; [apply returnValue_keys; set_solver|].
  split; [apply returnValue_eslintOptions|].
  unfold migratedAway in Haway. rewrite !Forall_cons in Haway.
  destruct Haway as (_ & Hlegacy & Hnewer & _).
  split; [by rewrite lookup_insert_ne|].
  split; [by rewrite lookup_insert_ne|].
  repeat split.
  - by intros -> _.
  - by intros -> _.
  - by intros -> _.
  - by intros -> ->.
Qed.

(** Witness of C1: with [warnFileIgnored: false] and [warnIgnored: true]
    the value surfaced is [false]. *)
Lemma warnIgnored_reconciled_witness :
  exists ret, migrateOptions (OptionsObject VUndef bothSynonyms) = Ok ret
              /\ ret !! "warnIgnored" = Some (VBool false).
Proof.
  destruct (warnIgnored_reconciled VUndef bothSynonyms)
    as (ret & eo & surfaced & Hret & Hs & _ & _ & _ & _ & Hboth & _).
  - vm_compute. reflexivity.
  - exists ret. split; [exact Hret|]. rewrite Hs. f_equal. apply Hboth.
    + vm_compute. reflexivity.
    + vm_compute. reflexivity.
Defined.

(** C1 as it was stated fails: with both synonyms defined, the value
    surfaced is not the one of the newer name; and when the object also
    has a forbidden option, no value is surfaced at all. *)
Lemma warnIgnored_newer_name_counterexample :
  defined (get bothSynonyms "warnFileIgnored") = true
  /\ defined (get bothSynonyms "warnIgnored") = true
  /\ (exists ret, migrateOptions (OptionsObject VUndef bothSynonyms) = Ok ret
                  /\ get ret "warnIgnored" <> get bothSynonyms "warnIgnored")
  /\ migrateOptions (OptionsObject VUndef (<["cache" := VBool true]> bothSynonyms))
     = Throw (InvalidOptionsError "Invalid options: cache").
Proof.
  split; [by vm_compute|]. split; [by vm_compute|]. split; [|by vm_compute].
  destruct (migrateOptions_accepted VUndef bothSynonyms) as (eo & oc & Hret & _);
    [by vm_compute|].
  eexists. split; [exact Hret|].
  unfold get. rewrite returnValue_warnIgnored. by vm_compute.
Qed.

End OptionsSpec.

Module ForbiddenSpec.
Import Options OptionsFacts BooleanMapFacts MigrationFacts MigrationOutcomes.

Lemma filter_sublist {A} (p : A -> bool) (l : list A) : sublist (List.filter p l) l.
Proof.
  induction l as [|x l IH]; simpl; [constructor|].
  destruct (p x); by constructor.
Qed.

Lemma hasOwn_spec props option : hasOwn props option = true <-> is_Some (props !! option).
Proof. unfold hasOwn. apply bool_decide_eq_true. Qed.

(** C5, as amended: [migrateOptions] throws the error "Invalid options:
    ..." (code ESLINT_INVALID_OPTIONS) if and only if the options object
    has an own property among the forbidden names; the message lists the
    forbidden names present, each once, in the order of the list of
    forbidden names.  When none is present the only other messages an
    error with that code can carry are the ones about [overrideConfig],
    [envs] and [globals]. *)
Theorem forbidden_options_rejected (rawESLint : value) (props : gmap string value) :
  exists names : list string,
    (forall option, option ∈ names <-> option ∈ forbiddenOptions /\ is_Some (props !! option))
    /\ sublist names forbiddenOptions
    /\ ((exists listed, migrateOptions (OptionsObject rawESLint props)
                        = Throw (InvalidOptionsError ("Invalid options: " ++ listed)))
        <-> names <> [])
    /\ (forall message,
          migrateOptions (OptionsObject rawESLint props) = Throw (InvalidOptionsError message) ->
          if decide (names = []) then message ∈ otherMessages
          else message = "Invalid options: " ++ join ", " names)
    /\ (names <> [] ->
        migrateOptions (OptionsObject rawESLint props)
        = Throw (InvalidOptionsError ("Invalid options: " ++ join ", " names))).
Proof.
  exists (List.filter (hasOwn props) forbiddenOptions).
  assert (Hthrow : List.filter (hasOwn props) forbiddenOptions <> [] ->
            migrateOptions (OptionsObject rawESLint props)
            = Throw (InvalidOptionsError
                       ("Invalid options: "
                        ++ join ", " (List.filter (hasOwn props) forbiddenOptions)))).
  { intros Hne. unfold migrateOptions.
    destruct (List.filter (hasOwn props) forbiddenOptions); done. }
  split; [|split; [|split; [|split]]].
  - intros option. rewrite !list_elem_of_In, filter_In, hasOwn_spec. tauto.
  - apply filter_sublist.
  - split.
    + intros [listed H].
      apply migrateOptions_Throw in H as [[Hne _]|[_ [H|(message & H & Hm)]]];
        [done|done|].
      injection H as <-. unfold otherMessages in Hm.
      rewrite !elem_of_cons, elem_of_nil in Hm.
      destruct Hm as [Hm|[Hm|[Hm|[]]]]; discriminate Hm.
    + intros Hne. eexists. by apply Hthrow.
  - intros message H.
    apply migrateOptions_Throw in H as [[Hne H]|[Hnil [H|(message' & H & Hm)]]].
    + rewrite decide_False by done. by injection H.
    + done.
    + rewrite decide_True by done. by injection H as ->.
  - exact Hthrow.
Qed.

(** C5 as it was stated fails: an options object with none of the
    forbidden names can still be refused with an error of the same code. *)
Lemma forbidden_options_only_if_counterexample :
  let props : gmap string value := {[ "overrideConfig" := VNum 5 ]} in
  (exists message,
     migrateOptions (OptionsObject VUndef props) = Throw (InvalidOptionsError message))
  /\ ~ (exists option, option ∈ forbiddenOptions /\ is_Some (props !! option)).
Proof.
  split.
  - eexists. vm_compute. reflexivity.
  - intros (option & Hin & Hsome). apply hasOwn_spec in Hsome.
    unfold forbiddenOptions in Hin. rewrite !elem_of_cons, elem_of_nil in Hin.
    destruct Hin as [->|[->|[->|[->|[->|[->|[->|[]]]]]]]]; vm_compute in Hsome;
      discriminate Hsome.
Qed.

End ForbiddenSpec.

Module LegacyListSpec.
Import Options OptionsFacts BooleanMapFacts MigrationFacts MigrationOutcomes OptionsSpec.

Lemma entryFlag_bare d key : colonFree key -> entryFlag d key = d.
Proof. intros H. unfold entryFlag. by destruct (entry_bare key H) as [_ ->]. Qed.

Lemma entryFlag_explicit d key explicit :
  colonFree key -> colonFree explicit ->
  entryFlag d (key ++ ":" ++ explicit) = bool_decide (explicit = "true").
Proof.
  intros Hk He. unfold entryFlag.
  destruct (entry_explicit key explicit Hk He) as [_ ->].
  destruct (String.eqb_spec explicit "true").
  - by rewrite bool_decide_eq_true_2.
  - by rewrite bool_decide_eq_false_2.
Qed.

Lemma legacy_list_migrated rawESLint props name target dflt entries :
  (name = "envs" /\ target = "env" /\ dflt = true)
  \/ (name = "globals" /\ target = "globals" /\ dflt = false) ->
  accepted props = true ->
  props !! name = Some (VArr (VStr <$> entries)) ->
  exists eo oc,
    migrateOptions (OptionsObject rawESLint props) = Ok (returnValue rawESLint props eo oc)
    /\ eo !! name = None
    /\ oc !! target = Some (match entries with
                            | [] => VUndef
                            | _ => VObj (foldl (addEntry dflt) ∅ entries)
                            end).
Proof.
  intros Hwhich Hacc Hname.
  destruct (migrateOptions_accepted rawESLint props Hacc)
    as (eo & oc & Hret & Haway & Henvs & Hglobals).
  exists eo, oc. split; [exact Hret|].
  unfold migratedAway in Haway. rewrite !Forall_cons in Haway.
  destruct Haway as (_ & _ & _ & _ & Hgone1 & _ & Hgone2 & _).
  destruct Hwhich as [(-> & -> & ->)|(-> & -> & ->)].
  - split; [done|]. unfold get in Henvs. rewrite Hname in Henvs. simpl in Henvs.
    destruct Henvs as (converted & Hc & Hoc); [done|].
    rewrite toBooleanMap_strings in Hc. by injection Hc as <-.
  - split; [done|]. unfold get in Hglobals. rewrite Hname in Hglobals. simpl in Hglobals.
    destruct Hglobals as (converted & Hc & Hoc); [done|].
    rewrite toBooleanMap_strings in Hc. by injection Hc as <-.
Qed.

(** C4, as amended: a non-empty array of strings given as the legacy
    [envs] (or [globals]) option of an options object that
    [migrateOptions] accepts is taken out of the engine's options and
    becomes, under [overrideConfig.env] (or [overrideConfig.globals]), a
    map from keys to booleans: no key ["__proto__"], and any other key
    bound as the last entry with that key says, to the default of the
    option ([true] for [envs], [false] for [globals]) when the entry has
    no explicit value and else to whether its explicit value is ["true"].
    An entry without a colon is its own key with no explicit value; an
    entry [key:explicit] has the key and the explicit value its colon
    separates.  The empty array is not turned into a map: the property
    is set to [undefined]. *)
Theorem legacy_list_to_boolean_map (rawESLint : value) (props : gmap string value)
    (name target : string) (dflt : bool) (entries : list string) :
  (name = "envs" /\ target = "env" /\ dflt = true)
  \/ (name = "globals" /\ target = "globals" /\ dflt = false) ->
  accepted props = true ->
  props !! name = Some (VArr (VStr <$> entries)) ->
  exists ret eo oc,
    migrateOptions (OptionsObject rawESLint props) = Ok ret
    /\ ret !! "eslintOptions" = Some (VObj eo)
    /\ eo !! "overrideConfig" = Some (VObj oc)
    /\ eo !! name = None
    /\ (entries = [] -> oc !! target = Some VUndef)
    /\ (entries <> [] ->
        exists map : gmap string value,
          oc !! target = Some (VObj map)
          /\ map !! "__proto__" = None
          /\ forall key, key <> "__proto__" ->
               map !! key
               = (fun entry => VBool (entryFlag dflt entry))
                   <$> last (filter (fun entry => entryKey entry = key) entries))
    /\ (forall key, colonFree key -> entryKey key = key /\ entryFlag dflt key = dflt)
    /\ (forall key explicit, colonFree key -> colonFree explicit ->
          entryKey (key ++ ":" ++ explicit) = key
          /\ entryFlag dflt (key ++ ":" ++ explicit) = bool_decide (explicit = "true")).
Proof.
  intros Hwhich Hacc Hname.
  destruct (legacy_list_migrated rawESLint props name target dflt entries Hwhich Hacc Hname)
    as (eo & oc & Hret & Hgone & Hoc).
  eexists _, _, oc. split; [exact Hret|].
  split; [apply returnValue_eslintOptions|].
  split; [apply lookup_insert_eq|].
  split.
  { rewrite lookup_insert_ne; [done|].
    destruct Hwhich as [(-> & _)|(-> & _)]; done. }
  split; [by intros ->|].
  split.
  { intros Hne. exists (foldl (addEntry dflt) ∅ entries).
    split; [by destruct entries|].
    split; [by rewrite foldl_addEntry_proto|].
    intros key Hkey. rewrite foldl_addEntry_lookup by done.
    by destruct (last _). }
  split.
  - intros key Hk. split; [by apply entry_bare|by apply entryFlag_bare].
  - intros key explicit Hk He. split; [by apply entry_explicit|by apply entryFlag_explicit].
Qed.

(** Witness of C4: [{globals: ["$", "jQuery:true"]}] migrates to
    [overrideConfig.globals] with [$] false, [jQuery] true and no other
    key. *)
Lemma legacy_list_to_boolean_map_witness :
  exists ret eo oc map,
    migrateOptions (OptionsObject VUndef jQueryGlobals) = Ok ret
    /\ ret !! "eslintOptions" = Some (VObj eo)
    /\ eo !! "overrideConfig" = Some (VObj oc)
    /\ oc !! "globals" = Some (VObj map)
    /\ map !! "$" = Some (VBool false)
    /\ map !! "jQuery" = Some (VBool true)
    /\ forall key, key <> "$" -> key <> "jQuery" -> map !! key = None.
Proof.
  destruct (legacy_list_to_boolean_map VUndef jQueryGlobals "globals" "globals" false
              ["$"; "jQuery:true"])
    as (ret & eo & oc & Hret & Heo & Hoc & _ & _ & Hmap & _).
  - right. repeat split.
  - vm_compute. reflexivity.
  - vm_compute. reflexivity.
  - destruct Hmap as (map & Hglobals & Hproto & Hkeys); [discriminate|].
    exists ret, eo, oc, map. repeat split; try assumption.
    + rewrite Hkeys by discriminate. vm_compute. reflexivity.
    + rewrite Hkeys by discriminate. vm_compute. reflexivity.
    + intros key H1 H2. destruct (decide (key = "__proto__")) as [->|Hp]; [exact Hproto|].
      rewrite Hkeys by exact Hp.
      rewrite !filter_cons, filter_nil.
      change (entryKey "$") with "$". change (entryKey "jQuery:true") with "jQuery".
      destruct (decide ("$" = key)) as [E|_]; [by destruct H1|].
      destruct (decide ("jQuery" = key)) as [E|_]; [by destruct H2|].
      reflexivity.
Defined.

(** C4 as it was stated fails on the empty array, which is a string
    array: it migrates to [undefined], not to a map.  And a string array
    is not converted at all when the object is refused, as it is with a
    forbidden option. *)
Lemma legacy_list_empty_counterexample :
  (exists ret eo oc,
     migrateOptions (OptionsObject VUndef {[ "envs" := VArr (VStr <$> []) ]}) = Ok ret
     /\ ret !! "eslintOptions" = Some (VObj eo)
     /\ eo !! "overrideConfig" = Some (VObj oc)
     /\ oc !! "env" = Some VUndef
     /\ forall map, oc !! "env" <> Some (VObj map))
  /\ migrateOptions (OptionsObject VUndef (<["cache" := VBool true]> jQueryGlobals))
     = Throw (InvalidOptionsError "Invalid options: cache").
Proof.
  split; [|by vm_compute].
  destruct (legacy_list_migrated VUndef {[ "envs" := VArr (VStr <$> []) ]}
              "envs" "env" true [])
    as (eo & oc & Hret & _ & Hoc).
  - by left.
  - by vm_compute.
  - by vm_compute.
  - eexists _, _, oc. split; [exact Hret|].
    split; [apply returnValue_eslintOptions|].
    split; [apply lookup_insert_eq|].
    split; [exact Hoc|]. intros map. by rewrite Hoc.
Qed.

End LegacyListSpec.

Module ResultsFacts.
Import Results.

Lemma alloc_spec (h : heap) c l h' :
  alloc h c = (l, h') -> h !! l = None /\ h' = <[l := c]> h.
Proof.
  unfold alloc. intros [= <- <-]. split; [|done].
  apply not_elem_of_dom. apply is_fresh.
Qed.

Lemma reduce_count (p : message -> bool) (ms : list message) (init : Z) :
  reduce (fun count m => count + Number (p m)) init ms
  = init + Z.of_nat (length (List.filter p ms)).
Proof.
  unfold reduce. revert init. induction ms as [|m ms IH]; intros init; simpl; [lia|].
  rewrite IH. destruct (p m); simpl length; unfold Number; lia.
Qed.

Lemma filterFrom_indexed {A} (callback : A -> nat -> bool) (i : nat) (l : list A) :
  filterFrom callback i l
  = (List.filter (fun jx => callback jx.2 jx.1) (imap (fun j x => ((i + j)%nat, x)) l)).*2.
Proof.
  revert i. induction l as [|x l IH]; intros i; [done|].
  cbn [filterFrom imap List.filter]. rewrite Nat.add_0_r. simpl.
  rewrite IH.
  rewrite (imap_ext (fun j x => ((S i + j)%nat, x))
                    ((fun j x => ((i + j)%nat, x)) ∘ S) l)
    by (intros; simpl; f_equal; lia).
  by destruct (callback x i).
Qed.

End ResultsFacts.

Module FilterSpec.
Import Results ResultsFacts.

Lemma defined_spec v : defined v = true <-> v <> VUndef.
Proof. by destruct v. Qed.

Lemma reduce_counts (p : message -> bool) (P : message -> Prop)
    `{forall m, Decision (P m)} (ms : list message) :
  (forall m, p m = true <-> P m) ->
  reduce (fun n m => n + Number (p m)) 0 ms = count P ms.
Proof.
  intros Hp. rewrite reduce_count. unfold count.
  assert (Hlen : length (List.filter p ms) = length (filter P ms)).
  { induction ms as [|m ms IH]; [done|].
    simpl. rewrite filter_cons. destruct (p m) eqn:E.
    - rewrite decide_True by by apply Hp. simpl. by rewrite IH.
    - rewrite decide_False; [done|]. rewrite <- Hp. congruence. }
  rewrite Hlen. lia.
Qed.

Lemma filterResult_run (h : heap) (result : loc) (filter : messageFilter) r ms :
  h !! result = Some (ResultObject r) ->
  h !! messages r = Some (MessageArray ms) ->
  let kept := filterFrom (fun m i => truthy (filter h result m i (messages r))) 0%nat ms in
  let array := fresh (dom h) in
  let h1 := <[array := MessageArray kept]> h in
  let newResult := fresh (dom h1) in
  filterResult result filter h
  = Some (newResult,
          <[newResult := ResultObject {|
              filePath := filePath r;
              messages := array;
              errorCount := reduce countErrorMessage 0 kept;
              warningCount := reduce countWarningMessage 0 kept;
              fixableErrorCount := reduce countFixableErrorMessage 0 kept;
              fixableWarningCount := reduce countFixableWarningMessage 0 kept;
              fatalErrorCount := reduce countFatalErrorMessage 0 kept;
              extra := extra r |}]> h1)
  /\ h !! array = None /\ h1 !! newResult = None.
Proof.
  intros Hr Hms. simpl. split; [|split].
  - unfold filterResult, resultAt, messagesAt. rewrite Hr. simpl. rewrite Hms. done.
  - apply not_elem_of_dom, is_fresh.
  - apply not_elem_of_dom, is_fresh.
Qed.

(** C2: [filterResult(r, p)] returns a result whose messages are those
    of [r], in their order, for which [p(message, index, messages)],
    called with [r] as [this], is truthy, and whose five counts are
    those of the messages kept: errors are the messages of severity above
    1, warnings the ones of severity 1, fixable ones those with a fix
    that is not [undefined], fatal errors the errors with a truthy
    [fatal].  The other properties of [r] are carried over. *)
Theorem filterResult_counts (h : heap) (result : loc) (filter : messageFilter)
    (r : lintResult) (ms : list message) :
  h !! result = Some (ResultObject r) ->
  h !! messages r = Some (MessageArray ms) ->
  exists newResult h' r' kept,
    filterResult result filter h = Some (newResult, h')
    /\ h' !! newResult = Some (ResultObject r')
    /\ h' !! messages r' = Some (MessageArray kept)
    /\ kept = (List.filter
                 (fun im => truthy (filter h result im.2 im.1 (messages r)))
                 (imap pair ms)).*2
    /\ errorCount r' = count (fun m => 1 < severity m) kept
    /\ warningCount r' = count (fun m => severity m = 1) kept
    /\ fixableErrorCount r'
       = count (fun m => 1 < severity m /\ fix_ m <> VUndef) kept
    /\ fixableWarningCount r'
       = count (fun m => severity m = 1 /\ fix_ m <> VUndef) kept
    /\ fatalErrorCount r'
       = count (fun m => 1 < severity m /\ truthy (fatal m) = true) kept
    /\ filePath r' = filePath r
    /\ extra r' = extra r.
Proof.
  intros Hr Hms.
  destruct (filterResult_run h result filter r ms Hr Hms) as (Hrun & Harray & Hnew).
  eexists _, _, _, _. split; [exact Hrun|].
  split; [apply lookup_insert_eq|]. cbn [messages].
  split.
  { rewrite lookup_insert_ne by (intros E; rewrite E, lookup_insert_eq in Hnew; done).
    apply lookup_insert_eq. }
  split.
  { exact (filterFrom_indexed
             (fun m i => truthy (filter h result m i (messages r))) 0%nat ms). }
  cbn [errorCount warningCount fixableErrorCount fixableWarningCount fatalErrorCount
       filePath extra].
  repeat split.
  - apply reduce_counts. intros m. unfold isErrorMessage. apply Z.ltb_lt.
  - apply reduce_counts. intros m. unfold isWarningMessage. apply Z.eqb_eq.
  - apply reduce_counts. intros m. unfold isErrorMessage.
    rewrite andb_true_iff, Z.ltb_lt, defined_spec. done.
  - apply reduce_counts. intros m. unfold isWarningMessage.
    rewrite andb_true_iff, Z.eqb_eq, defined_spec. done.
  - apply reduce_counts. intros m. unfold isErrorMessage.
    rewrite andb_true_iff, Z.ltb_lt. done.
Qed.

Lemma two_allocations_keep (h : heap) first second x y l c :
  h !! first = None ->
  <[first := y]> h !! second = None ->
  h !! l = Some c ->
  <[second := x]> (<[first := y]> h) !! l = Some c.
Proof.
  intros Hfirst Hsecond Hl.
  rewrite lookup_insert_ne.
  - rewrite lookup_insert_ne; [done|congruence].
  - intros <-. rewrite lookup_insert_ne in Hsecond; congruence.
Qed.

(** C8: [filterResult(r, p)] leaves [r] as it is: the result returned is
    a new object with a new array of messages, and every object there
    was before the call, [r] and its array of messages among them, is
    after the call what it was before. *)
Theorem filterResult_frame (h : heap) (result : loc) (filter : messageFilter)
    (r : lintResult) (ms : list message) :
  h !! result = Some (ResultObject r) ->
  h !! messages r = Some (MessageArray ms) ->
  exists newResult h' r',
    filterResult result filter h = Some (newResult, h')
    /\ h' !! result = Some (ResultObject r)
    /\ h' !! messages r = Some (MessageArray ms)
    /\ (forall l c, h !! l = Some c -> h' !! l = Some c)
    /\ newResult <> result
    /\ h !! newResult = None
    /\ h' !! newResult = Some (ResultObject r')
    /\ messages r' <> messages r
    /\ h !! messages r' = None.
Proof.
  intros Hr Hms.
  destruct (filterResult_run h result filter r ms Hr Hms) as (Hrun & Harray & Hnew).
  set (array := fresh (dom h)) in *.
  set (newResult := fresh (dom (<[array := MessageArray _]> h))) in *.
  assert (Hnew' : h !! newResult = None).
  { destruct (decide (array = newResult)) as [E|E]; [by rewrite <- E|].
    by rewrite lookup_insert_ne in Hnew. }
  eexists _, _, _. split; [exact Hrun|].
  split; [by apply two_allocations_keep|].
  split; [by apply two_allocations_keep|].
  split; [intros l c Hl; by apply two_allocations_keep|].
  split; [congruence|]. split; [exact Hnew'|].
  split; [apply lookup_insert_eq|]. cbn [messages].
  split; [congruence|exact Harray].
Qed.

End FilterSpec.

Module FilterWitness.
Import Results ResultsFacts FilterSpec.

Lemma filterResult_counts_witness :
  exists newResult h' r',
    filterResult 1%positive quietFilter lintedStore = Some (newResult, h')
    /\ h' !! newResult = Some (ResultObject r')
    /\ h' !! messages r' = Some (MessageArray [syntaxError])
    /\ errorCount r' = 1 /\ warningCount r' = 0
    /\ fixableErrorCount r' = 0 /\ fixableWarningCount r' = 0
    /\ fatalErrorCount r' = 1.
Proof.
  destruct (filterResult_counts lintedStore 1%positive quietFilter linted
              [fixableWarning; syntaxError; fixableWarning])
    as (newResult & h' & r' & kept & Hrun & Hres & Hms & Hkept & He & Hw & Hfe & Hfw & Hf & _).
  - reflexivity.
  - reflexivity.
  - exists newResult, h', r'. subst kept.
    split; [exact Hrun|]. split; [exact Hres|]. split; [exact Hms|].
    split; [exact He|]. split; [exact Hw|]. split; [exact Hfe|].
    split; [exact Hfw|exact Hf].
Defined.

Lemma filterResult_frame_witness :
  exists newResult h',
    filterResult 1%positive quietFilter lintedStore = Some (newResult, h')
    /\ h' !! 1%positive = Some (ResultObject linted)
    /\ h' !! 2%positive
       = Some (MessageArray [fixableWarning; syntaxError; fixableWarning])
    /\ newResult <> 1%positive.
Proof.
  destruct (filterResult_frame lintedStore 1%positive quietFilter linted
              [fixableWarning; syntaxError; fixableWarning])
    as (newResult & h' & r' & Hrun & Hres & Hms & _ & Hne & _).
  - reflexivity.
  - reflexivity.
  - exists newResult, h'. split; [exact Hrun|]. split; [exact Hres|].
    split; [exact Hms|exact Hne].
Defined.

End FilterWitness.

Module IgnoreSpec.
Import Results ResultsFacts.

(** C6: the result synthesized for an ignored file holds exactly one
    message, of severity 1 and with [fatal] false, and its counts are 0
    errors, 1 warning and 0 fixable errors, fixable warnings and fatal
    errors, which is what the counting functions give on that message.
    It is a new object: nothing that was in the store is changed. *)
Theorem createIgnoreResult_single_warning (relative : string -> string -> string)
    (path baseDir : string) (h : heap) :
  exists result h' r m,
    createIgnoreResult relative path baseDir h = (result, h')
    /\ h' !! result = Some (ResultObject r)
    /\ h' !! messages r = Some (MessageArray [m])
    /\ severity m = 1
    /\ fatal m = VBool false
    /\ rest m !! "message" = Some (VStr (ignoreReason relative path baseDir))
    /\ filePath r = path
    /\ errorCount r = 0 /\ warningCount r = 1
    /\ fixableErrorCount r = 0 /\ fixableWarningCount r = 0
    /\ fatalErrorCount r = 0
    /\ errorCount r = reduce countErrorMessage 0 [m]
    /\ warningCount r = reduce countWarningMessage 0 [m]
    /\ fixableErrorCount r = reduce countFixableErrorMessage 0 [m]
    /\ fixableWarningCount r = reduce countFixableWarningMessage 0 [m]
    /\ fatalErrorCount r = reduce countFatalErrorMessage 0 [m]
    /\ h !! result = None
    /\ forall l c, h !! l = Some c -> h' !! l = Some c.
Proof.
  unfold createIgnoreResult.
  destruct (alloc h _) as [array h1] eqn:H1.
  destruct (alloc h1 _) as [result h'] eqn:H2.
  pose proof (alloc_spec _ _ _ _ H1) as [Harray ->].
  pose proof (alloc_spec _ _ _ _ H2) as [Hresult ->].
  eexists _, _, _, _. split; [reflexivity|].
  split; [apply lookup_insert_eq|]. cbn [messages].
  split.
  { rewrite lookup_insert_ne by (intros E; rewrite E, lookup_insert_eq in Hresult; done).
    apply lookup_insert_eq. }
  cbn. repeat split; try reflexivity.
  - destruct (decide (array = result)) as [E|E]; [by rewrite <- E|].
    by rewrite lookup_insert_ne in Hresult.
  - intros l c Hl. rewrite !lookup_insert_ne; [done|intros <-..].
    + congruence.
    + rewrite lookup_insert_ne in Hresult; congruence.
Qed.

End IgnoreSpec.

Module PathFacts.
Import Results.

Lemma segments_nonempty path : segments path <> [].
Proof.
  destruct path as [|c path]; simpl; [done|].
  destruct (isSeparator c); [done|]. by destruct (segments path).
Qed.

Lemma segments_cons c path :
  isSeparator c = false ->
  exists segment others,
    segments path = segment :: others
    /\ segments (String c path) = String c segment :: others.
Proof.
  intros Hc. simpl. rewrite Hc.
  destruct (segments path) as [|segment others] eqn:E.
  - by apply segments_nonempty in E.
  - by exists segment, others.
Qed.

Lemma startsWithDot_first_segment path segment others :
  segments path = segment :: others ->
  startsWithDot segment = startsWithDot path.
Proof.
  destruct path as [|c path]; simpl.
  - by intros [= <- <-].
  - destruct (isSeparator c) eqn:Hc.
    + intros [= <- <-]. simpl. symmetry. apply Ascii.eqb_neq. intros ->.
      discriminate Hc.
    + destruct (segments path); by intros [= <- <-].
Qed.

Lemma hiddenFrom_segments path :
  hiddenFrom true path = existsb hiddenSegment (segments path)
  /\ hiddenFrom false path = existsb hiddenSegment (tl (segments path)).
Proof.
  induction path as [|c path [IHt IHf]]; [done|].
  cbn [hiddenFrom]. destruct (isSeparator c) eqn:Hc.
  - simpl segments. rewrite Hc. cbn [existsb tl hiddenSegment]. rewrite IHt.
    assert (Ascii.eqb c dot = false) as ->.
    { apply Ascii.eqb_neq. intros ->. discriminate Hc. }
    by rewrite andb_false_r.
  - destruct (segments_cons c path Hc) as (segment & others & Hp & ->).
    rewrite IHf, Hp. cbn [existsb tl hiddenSegment andb orb].
    rewrite (startsWithDot_first_segment _ _ _ Hp).
    split; [|done]. by destruct path.
Qed.

Lemma isHiddenRegExp_segments path :
  isHiddenRegExp path = existsb hiddenSegment (segments path).
Proof. apply hiddenFrom_segments. Qed.

Lemma segments_after_prefix prefix path d after :
  separatorFree prefix ->
  afterPrefix prefix path = Some (String d after) ->
  isSeparator d = true ->
  segments path = prefix :: segments after.
Proof.
  revert path. induction prefix as [|a prefix IH]; intros path Hfree Hafter Hd.
  - simpl in Hafter. injection Hafter as ->. simpl. by rewrite Hd.
  - destruct path as [|b path]; [done|]. simpl in Hafter.
    destruct (Ascii.eqb_spec a b) as [<-|]; [|done].
    unfold separatorFree in Hfree. simpl in Hfree. apply Forall_cons in Hfree as [Ha Hfree].
    simpl. rewrite Ha. by rewrite (IH path Hfree Hafter Hd).
Qed.

Lemma after_first_segment path segment next others :
  segments path = segment :: next :: others ->
  exists d after,
    afterPrefix segment path = Some (String d after) /\ isSeparator d = true.
Proof.
  revert segment. induction path as [|c path IH]; intros segment; simpl.
  - done.
  - destruct (isSeparator c) eqn:Hc.
    + intros [= <- Hrest]. simpl. eauto.
    + destruct (segments path) as [|segment' others'] eqn:E; [done|].
      intros [= <- ->]. simpl. rewrite Ascii.eqb_refl. by apply IH.
Qed.

Lemma node_modules_at_start path :
  match afterPrefix "node_modules" path with
  | Some (String d _) => isSeparator d
  | _ => false
  end
  = match segments path with
    | segment :: _ :: _ => isNodeModules segment
    | _ => false
    end.
Proof.
  destruct (afterPrefix "node_modules" path) as [[|d after]|] eqn:E.
  - destruct (segments path) as [|segment [|next others]] eqn:Hs; [done..|].
    destruct (after_first_segment _ _ _ _ Hs) as (d & after & Hafter & Hd).
    unfold isNodeModules. destruct (String.eqb_spec segment "node_modules") as [->|]; [|done].
    congruence.
  - destruct (isSeparator d) eqn:Hd.
    + rewrite (segments_after_prefix "node_modules" path d after); [| |done..].
      * destruct (segments after) eqn:Ha; [by apply segments_nonempty in Ha|done].
      * unfold separatorFree. simpl. repeat constructor.
    + destruct (segments path) as [|segment [|next others]] eqn:Hs; [done..|].
      destruct (after_first_segment _ _ _ _ Hs) as (d' & after' & Hafter & Hd').
      unfold isNodeModules. destruct (String.eqb_spec segment "node_modules") as [->|]; [|done].
      congruence.
  - destruct (segments path) as [|segment [|next others]] eqn:Hs; [done..|].
    destruct (after_first_segment _ _ _ _ Hs) as (d' & after' & Hafter & Hd').
    unfold isNodeModules. destruct (String.eqb_spec segment "node_modules") as [->|]; [|done].
    congruence.
Qed.

Lemma inNodeModulesFrom_directories path :
  inNodeModulesFrom true path = existsb isNodeModules (directories path)
  /\ inNodeModulesFrom false path = existsb isNodeModules (tl (directories path)).
Proof.
  unfold directories.
  induction path as [|c path [IHt IHf]]; [done|].
  cbn [inNodeModulesFrom]. rewrite node_modules_at_start. cbn [andb].
  destruct (isSeparator c) eqn:Hc.
  - simpl segments. rewrite Hc. rewrite IHt.
    destruct (segments path) as [|segment others] eqn:Hs;
      [by apply segments_nonempty in Hs|].
    cbn [removelast tl existsb]. by destruct others.
  - destruct (segments_cons c path Hc) as (segment & others & Hp & ->).
    rewrite IHf, Hp. destruct others as [|next others]; [done|].
    cbn [removelast tl existsb]. done.
Qed.

Lemma isInNodeModulesRegExp_directories path :
  isInNodeModulesRegExp path = existsb isNodeModules (directories path).
Proof. apply inNodeModulesFrom_directories. Qed.

End PathFacts.

Module ReasonSpec.
Import Results ResultsFacts PathFacts.

Lemma existsb_elem_of {A} (p : A -> bool) (l : list A) :
  existsb p l = true <-> exists x, x ∈ l /\ p x = true.
Proof.
  rewrite existsb_exists. split; intros (x & Hx & Hp); exists x.
  - by rewrite list_elem_of_In.
  - by rewrite <- list_elem_of_In.
Qed.

Lemma isNodeModules_elem_of (l : list string) :
  existsb isNodeModules l = true <-> "node_modules" ∈ l.
Proof.
  rewrite existsb_elem_of. unfold isNodeModules. split.
  - intros (x & Hx & ->%String.eqb_eq). done.
  - intros H. exists "node_modules". by split.
Qed.

Lemma createIgnoreResult_message relative path baseDir (h : heap) :
  exists result h' r m,
    createIgnoreResult relative path baseDir h = (result, h')
    /\ h' !! result = Some (ResultObject r)
    /\ h' !! messages r = Some (MessageArray [m])
    /\ rest m !! "message" = Some (VStr (ignoreReason relative path baseDir)).
Proof.
  unfold createIgnoreResult.
  destruct (alloc h _) as [array h1] eqn:H1.
  destruct (alloc h1 _) as [result h'] eqn:H2.
  pose proof (alloc_spec _ _ _ _ H1) as [Harray ->].
  pose proof (alloc_spec _ _ _ _ H2) as [Hresult ->].
  eexists _, _, _, _. split; [reflexivity|].
  split; [apply lookup_insert_eq|]. cbn [messages].
  split.
  - rewrite lookup_insert_ne by (intros E; rewrite E, lookup_insert_eq in Hresult; done).
    apply lookup_insert_eq.
  - apply lookup_singleton_eq.
Qed.

Lemma hiddenSegment_dotSegment segment :
  hiddenSegment segment = true -> dotSegment segment = true.
Proof.
  destruct segment as [|c after]; [done|].
  intros [Hc Hd]%andb_true_iff. apply andb_true_iff. split; [exact Hc|].
  apply negb_true_iff, String.eqb_neq. intros [= -> ->]. discriminate Hd.
Qed.

(** C3, as amended: the message of the result synthesized for an
    ignored file is chosen on the path relative to the base directory,
    in a fixed order.  If one of its segments starts with a dot that no
    second dot follows, the message is the hidden-path one, whether or
    not there is a [node_modules] directory in the path.  If no segment
    starts with a dot, segments [..] apart, then the message is the
    [node_modules] one when a segment other than the last is
    [node_modules], and the one about a matching ignore pattern when
    there is no such segment.  So [.hidden/file.js] gets the hidden-path
    message, [node_modules/pkg/a.js] the [node_modules] one and
    [src/a.js] the generic one. *)
Theorem ignoreReason_order (relative : string -> string -> string)
    (path baseDir : string) :
  let relativePath := relative baseDir path in
  let reason := ignoreReason relative path baseDir in
  let hidden := exists segment,
                  segment ∈ segments relativePath /\ hiddenSegment segment = true in
  let dotted := exists segment,
                  segment ∈ segments relativePath /\ dotSegment segment = true in
  let inNodeModules := "node_modules" ∈ directories relativePath in
  (forall h, exists result h' r m,
      createIgnoreResult relative path baseDir h = (result, h')
      /\ h' !! result = Some (ResultObject r)
      /\ h' !! messages r = Some (MessageArray [m])
      /\ rest m !! "message" = Some (VStr reason))
  /\ (hidden -> reason = hiddenMessage)
  /\ (~ dotted -> inNodeModules -> reason = nodeModulesMessage)
  /\ (~ dotted -> ~ inNodeModules -> reason = patternMessage)
  /\ (relativePath = ".hidden/file.js" -> reason = hiddenMessage)
  /\ (relativePath = "node_modules/pkg/a.js" -> reason = nodeModulesMessage)
  /\ (relativePath = "src/a.js" -> reason = patternMessage).
Proof.
  intros relativePath reason hidden dotted inNodeModules.
  split; [intros h; apply createIgnoreResult_message|].
  assert (Hdotted : ~ dotted -> isHiddenRegExp relativePath = false).
  { intros Hno. apply not_true_is_false. intros H. apply Hno.
    rewrite isHiddenRegExp_segments, existsb_elem_of in H.
    destruct H as (segment & Hin & Hh). exists segment.
    split; [done|]. by apply hiddenSegment_dotSegment. }
  subst reason hidden inNodeModules. unfold ignoreReason. fold relativePath.
  rewrite <- existsb_elem_of, <- isNodeModules_elem_of.
  rewrite <- isHiddenRegExp_segments, <- isInNodeModulesRegExp_directories.
  repeat split.
  - by intros ->.
  - intros Hh Hn. by rewrite Hn, Hdotted.
  - intros Hh Hn. rewrite Hdotted by done.
    by destruct (isInNodeModulesRegExp relativePath).
  - by intros ->.
  - by intros ->.
  - by intros ->.
Qed.

(** Witness of C3, with the relative paths of files below [/project]. *)
Lemma ignoreReason_order_witness :
  ignoreReason relativeBelow "/project/.hidden/file.js" "/project" = hiddenMessage
  /\ ignoreReason relativeBelow "/project/.git/node_modules/a.js" "/project" = hiddenMessage
  /\ ignoreReason relativeBelow "/project/node_modules/pkg/a.js" "/project"
     = nodeModulesMessage
  /\ ignoreReason relativeBelow "/project/src/a.js" "/project" = patternMessage.
Proof.
  split; [|split; [|split]].
  - pose proof (ignoreReason_order relativeBelow "/project/.hidden/file.js" "/project") as H.
    cbv zeta in H. destruct H as (_ & _ & _ & _ & H & _). apply H. reflexivity.
  - pose proof (ignoreReason_order relativeBelow "/project/.git/node_modules/a.js"
                  "/project") as H.
    cbv zeta in H. destruct H as (_ & H & _). apply H.
    exists ".git". split; [|reflexivity]. vm_compute. apply list_elem_of_here.
  - pose proof (ignoreReason_order relativeBelow "/project/node_modules/pkg/a.js"
                  "/project") as H.
    cbv zeta in H. destruct H as (_ & _ & _ & _ & _ & H & _). apply H. reflexivity.
  - pose proof (ignoreReason_order relativeBelow "/project/src/a.js" "/project") as H.
    cbv zeta in H. destruct H as (_ & _ & _ & _ & _ & _ & H). apply H. reflexivity.
Defined.

(** C3 as it was stated fails twice.  A last segment [node_modules] is
    a [node_modules] segment, and the file does not get the
    [node_modules] message: the expression asks for a separator after the
    name.  And a segment that starts with two dots without being [..] is
    a segment starting with a dot that is not [..], and the file does not
    get the hidden-path message. *)
Lemma ignoreReason_dot_segment_counterexample :
  ((exists segment,
      segment ∈ segments (relativeBelow "/project" "/project/..cache/a.js")
      /\ dotSegment segment = true)
   /\ ignoreReason relativeBelow "/project/..cache/a.js" "/project" <> hiddenMessage)
  /\ ((~ exists segment,
         segment ∈ segments (relativeBelow "/project" "/project/src/node_modules")
         /\ dotSegment segment = true)
      /\ "node_modules" ∈ segments (relativeBelow "/project" "/project/src/node_modules")
      /\ ignoreReason relativeBelow "/project/src/node_modules" "/project"
         <> nodeModulesMessage).
Proof.
  split; [split|split; [|split]].
  - exists "..cache". split; [|reflexivity]. vm_compute. apply list_elem_of_here.
  - vm_compute. discriminate.
  - intros (segment & Hin & Hdot).
    assert (E : segments (relativeBelow "/project" "/project/src/node_modules")
                = ["src"; "node_modules"]) by (vm_compute; reflexivity).
    rewrite E in Hin. rewrite !elem_of_cons, elem_of_nil in Hin.
    destruct Hin as [->|[->|[]]]; discriminate Hdot.
  - vm_compute. apply list_elem_of_further, list_elem_of_here.
  - vm_compute. discriminate.
Qed.

End ReasonSpec.

Module ErrorFacts.
Import Errors.

Lemma falsy_cases (v : value) :
  truthy v = false ->
  v = VUndef \/ v = VNull \/ v = VBool false \/ v = VNum 0 \/ v = VStr EmptyString.
Proof.
  destruct v as [| |[]|n|s| | |]; simpl; try discriminate; auto.
  - intros H. apply negb_false_iff, Z.eqb_eq in H. subst. auto.
  - intros H. apply negb_false_iff, String.eqb_eq in H. subst. auto 10.
Qed.

Lemma setDefaults_lookups (name : string) (reason : thrown)
    (options opts : gmap string value) (error : details) :
  setDefaults name reason options = Returned (opts, error) ->
  opts !! "plugin" = Some (VStr name)
  /\ exists chosen,
       opts !! "message" = chosen !! "message"
       /\ opts !! "showStack" = Some (default (VBool false) (chosen !! "showStack"))
       /\ match reason with
          | Tagged e => chosen = options /\ error = Details (message e)
          | ErrorObject m => chosen = options /\ error = Details m
          | Other (VObj props) => chosen = props /\ error = detailsOf (get props "error")
          | Other (VArr _) => chosen = ∅ /\ error = NoDetails
          | Other v => chosen = <["message" := v]> options
                       /\ error = detailsOf (get options "error")
          end.
Proof.
  unfold setDefaults.
  set (defaults := ({[ "showStack" := VBool false; "showProperties" := VBool true ]}
                    : gmap string value)).
  assert (Hshape : forall chosen d,
             Returned (delete "error" (<["plugin" := VStr name]> chosen) ∪ defaults, d)
             = Returned (opts, error) ->
             opts !! "plugin" = Some (VStr name)
             /\ opts !! "message" = chosen !! "message"
             /\ opts !! "showStack" = Some (default (VBool false) (chosen !! "showStack"))
             /\ d = error).
  { intros chosen d [= <- <-].
    split.
    { apply lookup_union_Some_l. rewrite lookup_delete_ne by done.
      by rewrite lookup_insert_eq. }
    split.
    { rewrite lookup_union, lookup_delete_ne, lookup_insert_ne by done.
      assert (defaults !! "message" = None) as -> by done.
      by destruct (chosen !! "message"). }
    split; [|done].
    rewrite lookup_union, lookup_delete_ne, lookup_insert_ne by done.
    assert (defaults !! "showStack" = Some (VBool false)) as -> by done.
    by destruct (chosen !! "showStack"). }
  destruct reason as [e|m|v]; [| |destruct v]; try discriminate;
    intros H; apply Hshape in H as (Hp & Hm & Hs & <-);
    (split; [exact Hp|]); eexists; (split; [exact Hm|]); (split; [exact Hs|]); done.
Qed.

(** An instance that the constructor returns has the plugin's name and a
    truthy message. *)
Lemma newPluginError_Returned (name : string) (reason : thrown)
    (options : gmap string value) (p : pluginError) :
  newPluginError name reason options = Returned p ->
  plugin p = VStr name /\ truthy (message p) = true.
Proof.
  unfold newPluginError.
  destruct (setDefaults name reason options) as [[opts error]|] eqn:E; [|done].
  apply setDefaults_lookups in E as (Hp & _).
  assert (Hget : get opts "plugin" = VStr name) by (unfold get; by rewrite Hp).
  destruct error; [|done|]; cbv zeta; cbn [plugin message];
    rewrite Hget;
    (destruct (negb (truthy (VStr name))); [done|]);
    match goal with
    | |- context [negb (truthy ?m)] => destruct (truthy m) eqn:Ht; [|done]
    end; simpl; intros [= <-]; done.
Qed.

(** The constructor never misses the plugin's name here. *)
Lemma newPluginError_Thrown (reason : thrown) (options : gmap string value)
    (f : failure) :
  newPluginError "gulp-eslint-new" reason options = Thrown f ->
  f = PlainError "Missing error message" \/ f = PlainTypeError.
Proof.
  unfold newPluginError.
  destruct (setDefaults "gulp-eslint-new" reason options) as [[opts error]|g] eqn:E.
  - apply setDefaults_lookups in E as (Hp & _).
    assert (Hget : get opts "plugin" = VStr "gulp-eslint-new")
      by (unfold get; by rewrite Hp).
    destruct error; try (intros [= <-]; by right);
      cbv zeta; cbn [plugin message]; rewrite Hget; simpl;
      match goal with
      | |- context [negb (truthy ?m)] => destruct (truthy m)
      end; simpl; try done; intros [= <-]; by left.
  - unfold setDefaults in E.
    destruct reason as [e|m|v]; [| |destruct v]; try discriminate.
    injection E as <-. intros [= <-]. by right.
Qed.

(** What the constructor makes of a message that is an [Error] or that
    is no object, under the options of [createPluginError]. *)
Lemma newPluginError_wrapped (reason : thrown) (m : value) :
  match reason with
  | Tagged e => m = message e
  | ErrorObject m' => m = m'
  | Other v => m = v /\ typeof v <> TObject
  end ->
  newPluginError "gulp-eslint-new" reason {[ "showStack" := VBool true ]}
  = if truthy m
    then Returned {| plugin := VStr "gulp-eslint-new"; message := m;
                     showStack := VBool true |}
    else Thrown (PlainError "Missing error message").
Proof.
  intros Hm. unfold newPluginError.
  destruct (setDefaults "gulp-eslint-new" reason {[ "showStack" := VBool true ]})
    as [[opts error]|g] eqn:E.
  - apply setDefaults_lookups in E as (Hp & chosen & Hmsg & Hs & Hc).
    assert (Hget : get opts "plugin" = VStr "gulp-eslint-new")
      by (unfold get; by rewrite Hp).
    assert (Hown : match error with NullDetails => False | _ => True end
                   /\ default (VStr EmptyString)
                        (match opts !! "message" with
                         | Some m' => Some m'
                         | None => match error with Details m' => Some m' | _ => None end
                         end) = m
                   /\ get opts "showStack" = VBool true).
    { unfold get. rewrite Hs, Hmsg.
      destruct reason as [e|m'|v]; [| |destruct v; destruct Hm as [-> Hm]; try done];
        destruct Hc as [-> ->]; subst; try done. }
    destruct Hown as (Hnull & Hown & Hshow).
    destruct error; [|done|]; cbv zeta; cbn [plugin message];
      rewrite Hget, Hown, Hshow; simpl; by destruct (truthy m).
  - unfold setDefaults in E.
    destruct reason as [e|m'|v]; [| |destruct v]; try discriminate.
    by destruct Hm.
Qed.

End ErrorFacts.

Module ErrorSpec.
Import Errors ErrorFacts.

(** C7: [createPluginError] does not return a [PluginError] for every
    value.  The guard [error == null] puts a message in the place of
    [null] and [undefined] only: for any other falsy value ([false], [0],
    the empty string) and for an [Error] whose message is falsy the
    constructor throws a plain [Error], "Missing error message", so
    [createPluginError] throws it, and [awaitHandler] then ends without a
    call of [done], its promise rejected with that plain [Error].  And a
    value that is a plain object is taken for the options of the
    constructor: the [PluginError] made of it has [showStack] off. *)
Theorem createPluginError_missing_message :
  (forall v, nullish v = false -> truthy v = false ->
     createPluginError (Other v) = Thrown (PlainError "Missing error message")
     /\ forall (A : Type) (data : A),
          awaitHandler (Rejected (Other v)) data
          = PromiseRejected (PlainError "Missing error message"))
  /\ (forall m, truthy m = false ->
        createPluginError (ErrorObject m) = Thrown (PlainError "Missing error message")
        /\ forall (A : Type) (data : A),
             awaitHandler (Rejected (ErrorObject m)) data
             = PromiseRejected (PlainError "Missing error message"))
  /\ createPluginError (Other (VObj {[ "message" := VStr "failed" ]}))
     = Returned {| plugin := VStr "gulp-eslint-new"; message := VStr "failed";
                   showStack := VBool false |}
  /\ createPluginError (Other VNull)
     = Returned {| plugin := VStr "gulp-eslint-new"; message := VStr "Unknown Error";
                   showStack := VBool true |}.
Proof.
  split; [|split; [|split; reflexivity]].
  - intros v Hnull Hfalsy.
    assert (H : createPluginError (Other v) = Thrown (PlainError "Missing error message")).
    { destruct (falsy_cases v Hfalsy) as [->|[->|[->|[->| ->]]]]; try done. }
    split; [exact H|]. intros A data. unfold awaitHandler. by rewrite H.
  - intros m Hfalsy.
    assert (H : createPluginError (ErrorObject m)
                = Thrown (PlainError "Missing error message")).
    { destruct (falsy_cases m Hfalsy) as [->|[->|[->|[->| ->]]]]; done. }
    split; [exact H|]. intros A data. unfold awaitHandler. by rewrite H.
Qed.

(** A handler that throws the empty string, and one that throws an
    [Error] made without a message. *)
Lemma createPluginError_missing_message_witness :
  createPluginError (Other (VStr EmptyString))
  = Thrown (PlainError "Missing error message")
  /\ awaitHandler (Rejected (ErrorObject (VStr EmptyString))) tt
     = PromiseRejected (PlainError "Missing error message").
Proof.
  destruct createPluginError_missing_message as (Hvalue & Herror & _).
  split.
  - apply (Hvalue (VStr EmptyString)); reflexivity.
  - apply (Herror (VStr EmptyString)); reflexivity.
Defined.

End ErrorSpec.

Module OrderFacts.

Lemma ascii_compare_lt_trans a b c :
  Ascii.compare a b = Lt -> Ascii.compare b c = Lt -> Ascii.compare a c = Lt.
Proof.
  unfold Ascii.compare. rewrite !N.compare_lt_iff. lia.
Qed.

Lemma string_compare_lt_trans s1 s2 s3 :
  String.compare s1 s2 = Lt -> String.compare s2 s3 = Lt -> String.compare s1 s3 = Lt.
Proof.
  revert s2 s3. induction s1 as [|a s1 IH]; intros [|b s2] [|c s3]; simpl; try done.
  destruct (Ascii.compare a b) eqn:Hab; [| |done].
  - apply Ascii.compare_eq_iff in Hab as ->.
    destruct (Ascii.compare b c) eqn:Hbc; [|done..].
    apply IH.
  - intros _. destruct (Ascii.compare b c) eqn:Hbc; [| |done].
    + apply Ascii.compare_eq_iff in Hbc as ->. by rewrite Hab.
    + by rewrite (ascii_compare_lt_trans a b c).
Qed.

Lemma string_leb_trans s1 s2 s3 :
  (s1 <=? s2)%string = true -> (s2 <=? s3)%string = true -> (s1 <=? s3)%string = true.
Proof.
  unfold String.leb.
  destruct (String.compare s1 s2) eqn:H12; [| |done].
  - apply String.compare_eq_iff in H12 as ->. done.
  - destruct (String.compare s2 s3) eqn:H23; [| |done].
    + apply String.compare_eq_iff in H23 as ->. by rewrite H12.
    + by rewrite (string_compare_lt_trans s1 s2 s3).
Qed.

End OrderFacts.

Module SortFacts.
Import Results Formatter OrderFacts.

Section ByKey.

Context {A : Type} (key : A -> string).

Lemma byKey_positive a b : (0 <? byKey key a b) = (key b <? key a)%string.
Proof.
  unfold byKey. destruct (key b <? key a)%string; [done|].
  by destruct (key a <? key b)%string.
Qed.

Lemma ltb_leb (s1 s2 : string) : (s1 <? s2)%string = true -> (s1 <=? s2)%string = true.
Proof. unfold String.ltb, String.leb. by destruct (String.compare s1 s2). Qed.

Lemma not_ltb_leb (s1 s2 : string) : (s2 <? s1)%string = false -> (s1 <=? s2)%string = true.
Proof.
  unfold String.ltb, String.leb. rewrite (String.compare_antisym s1 s2).
  by destruct (String.compare s2 s1).
Qed.

Lemma ltb_irrefl (s : string) : (s <? s)%string = false.
Proof.
  unfold String.ltb. pose proof (String.compare_antisym s s) as H.
  destruct (String.compare s s); simpl in H; congruence.
Qed.

Lemma insertInOrder_perm x l : Permutation (insertInOrder (byKey key) x l) (x :: l).
Proof.
  induction l as [|y l IH]; simpl; [done|].
  destruct (0 <? byKey key x y); [|done].
  rewrite IH. apply perm_swap.
Qed.

Lemma sort_perm l : Permutation (sort (byKey key) l) l.
Proof.
  induction l as [|x l IH]; simpl; [done|].
  rewrite insertInOrder_perm. by constructor.
Qed.

Lemma insertInOrder_sorted x l :
  Sorted (keyOrdered key) l -> Sorted (keyOrdered key) (insertInOrder (byKey key) x l).
Proof.
  induction l as [|y l IH]; simpl; intros Hs.
  - by repeat constructor.
  - rewrite byKey_positive. destruct (key y <? key x)%string eqn:E.
    + apply Sorted_inv in Hs as [Hs Hhd]. constructor; [by apply IH|].
      destruct l as [|z l]; simpl.
      * constructor. by apply ltb_leb.
      * rewrite byKey_positive. destruct (key z <? key x)%string.
        -- constructor. by inversion Hhd.
        -- constructor. by apply ltb_leb.
    + constructor; [done|]. constructor. by apply not_ltb_leb.
Qed.

Lemma sort_sorted l : Sorted (keyOrdered key) (sort (byKey key) l).
Proof.
  induction l as [|x l IH]; simpl; [constructor|]. by apply insertInOrder_sorted.
Qed.

(** The sort is stable: the elements with one key keep their order. *)
Lemma insertInOrder_stable k x l :
  filter (fun a => key a = k) (insertInOrder (byKey key) x l)
  = filter (fun a => key a = k) (x :: l).
Proof.
  induction l as [|y l IH]; simpl; [done|].
  rewrite byKey_positive. destruct (key y <? key x)%string eqn:E; [|done].
  rewrite filter_cons, IH, !filter_cons.
  destruct (decide (key y = k)) as [Hy|Hy]; [|done].
  destruct (decide (key x = k)) as [Hx|Hx]; [|done].
  rewrite Hx, Hy, ltb_irrefl in E. done.
Qed.

Lemma sort_stable k l :
  filter (fun a => key a = k) (sort (byKey key) l) = filter (fun a => key a = k) l.
Proof.
  induction l as [|x l IH]; simpl; [done|].
  rewrite insertInOrder_stable, !filter_cons, IH. done.
Qed.

Lemma sort_strongly_sorted l : StronglySorted (keyOrdered key) (sort (byKey key) l).
Proof.
  apply Sorted.Sorted_StronglySorted; [|apply sort_sorted].
  intros a b c. unfold keyOrdered. apply string_leb_trans.
Qed.

End ByKey.

Lemma insertInOrder_ext {A} (key1 key2 : A -> string) x l :
  key1 x = key2 x -> Forall (fun a => key1 a = key2 a) l ->
  insertInOrder (byKey key1) x l = insertInOrder (byKey key2) x l.
Proof.
  intros Hx. induction 1 as [|y l Hy Hl IH]; simpl; [done|].
  rewrite !byKey_positive, Hx, Hy, IH. done.
Qed.

Lemma sort_ext {A} (key1 key2 : A -> string) l :
  Forall (fun a => key1 a = key2 a) l ->
  sort (byKey key1) l = sort (byKey key2) l.
Proof.
  induction 1 as [|x l Hx Hl IH]; simpl; [done|].
  rewrite IH. apply insertInOrder_ext; [done|].
  by rewrite sort_perm.
Qed.

Lemma filter_fst {A B} (P : A -> Prop) `{forall a, Decision (P a)} (l : list (A * B)) :
  filter P (l.*1) = (filter (fun ab => P ab.1) l).*1.
Proof.
  induction l as [|[a b] l IH]; [done|].
  rewrite fmap_cons, !filter_cons. simpl. rewrite IH. by destruct (decide (P a)).
Qed.

End SortFacts.

Module FormatterFacts.
Import Results Formatter OrderFacts SortFacts.

Section Engine.

Variable getRulesMetaForResults : heap -> loc -> value.
Variable body : value -> heap -> loc -> formatting.

Lemma call_cached h results todo dir rulesMeta lookups :
  call getRulesMetaForResults h results todo
    {| cwd := dir; rulesMeta := DataProperty rulesMeta |} lookups
  = (answer rulesMeta dir todo,
     {| cwd := dir; rulesMeta := DataProperty rulesMeta |}, lookups).
Proof.
  induction todo as [output|next IH|next IH]; simpl; [done|apply IH..].
Qed.

Lemma call_getter h results todo dir lookups :
  let rulesMeta := getRulesMetaForResults h results in
  exists ctx,
    call getRulesMetaForResults h results todo
      {| cwd := dir; rulesMeta := Getter |} lookups
    = (answer rulesMeta dir todo, ctx,
       if readsRulesMeta dir todo then S lookups else lookups).
Proof.
  induction todo as [output|next IH|next IH]; simpl.
  - eauto.
  - rewrite call_cached. eauto.
  - apply IH.
Qed.

Lemma sortResults_run (h : heap) results refs :
  resultsAt h results = Some refs ->
  Forall (fun ref => is_Some (resultAt h ref)) refs ->
  exists sorted,
    sortResults results h = Some (<[results := ResultArray sorted]> h)
    /\ sorted ≡ₚ refs
    /\ StronglySorted (keyOrdered (pathAt h)) sorted
    /\ forall path, filter (fun ref => pathAt h ref = path) sorted
                    = filter (fun ref => pathAt h ref = path) refs.
Proof.
  intros Hrefs Hall. unfold sortResults. rewrite Hrefs. simpl.
  destruct (mapM_is_Some_2 (fun ref => pair ref <$> resultAt h ref) refs) as [objects Hobjects].
  { eapply Forall_impl; [exact Hall|]. intros ref [r Hr]. simpl. rewrite Hr. by eexists. }
  rewrite Hobjects. simpl.
  apply mapM_Some_1 in Hobjects.
  assert (Hfst : objects.*1 = refs).
  { clear Hrefs Hall.
    induction Hobjects as [|ref [ref' r] refs objects H _ IH]; [done|].
    rewrite fmap_cons, IH. destruct (resultAt h ref); simpl in H; [|done].
    by injection H as <- _. }
  assert (Hkey : Forall (fun a : loc * lintResult => filePath a.2 = pathAt h a.1) objects).
  { clear Hfst Hrefs Hall.
    induction Hobjects as [|ref [ref' r] refs objects H _ IH]; [done|].
    constructor; [|exact IH].
    unfold pathAt. destruct (resultAt h ref) eqn:E; simpl in H; [|done].
    injection H as <- <-. simpl. by rewrite E. }
  assert (Hsort : sort (fun a b => compareResultsByFilePath a.2 b.2) objects
                  = sort (byKey (fun a : loc * lintResult => pathAt h a.1)) objects).
  { exact (sort_ext (fun a : loc * lintResult => filePath a.2) _ objects Hkey). }
  rewrite Hsort. eexists. split; [reflexivity|]. split; [|split].
  - rewrite <- Hfst. apply fmap_Permutation, sort_perm.
  - apply (StronglySorted_fmap fst (keyOrdered (fun a : loc * lintResult => pathAt h a.1))).
    + done.
    + apply sort_strongly_sorted.
  - intros path. rewrite <- Hfst, !filter_fst.
    by rewrite (sort_stable (fun a : loc * lintResult => pathAt h a.1)).
Qed.

Lemma format_run (h : heap) dir formatter results refs lookups :
  resultsAt h results = Some refs ->
  Forall (fun ref => is_Some (resultAt h ref)) refs ->
  exists sorted,
    let h' := <[results := ResultArray sorted]> h in
    let todo := body formatter h' results in
    format getRulesMetaForResults body dir formatter results h lookups
    = Some (answer (getRulesMetaForResults h' results) dir todo, h',
            if readsRulesMeta dir todo then S lookups else lookups)
    /\ sorted ≡ₚ refs
    /\ StronglySorted (keyOrdered (pathAt h)) sorted
    /\ forall path, filter (fun ref => pathAt h ref = path) sorted
                    = filter (fun ref => pathAt h ref = path) refs.
Proof.
  intros Hrefs Hall.
  destruct (sortResults_run h results refs Hrefs Hall) as (sorted & Hsort & Hrest).
  exists sorted. split; [|exact Hrest].
  unfold format. rewrite Hsort. simpl.
  destruct (call_getter (<[results := ResultArray sorted]> h) results
              (body formatter (<[results := ResultArray sorted]> h) results)
              dir lookups) as [ctx ->].
  done.
Qed.

End Engine.

End FormatterFacts.

Module FormatterSpec.
Import Results Formatter OrderFacts SortFacts FormatterFacts.

(** C9: a formatter reference that is an object with a [format]
    function is returned as it is.  Any other function is wrapped: the
    [format] of the wrapper first sorts the array of results by file path
    and then calls the function with the array and a context; every read
    of [context.rulesMeta] gives what the engine's
    [getRulesMetaForResults] answers for the sorted array, and the engine
    is asked when the property is first read, and only then: not at all
    when the function never reads it, once when it does.  Any other
    reference is handed to the engine's [loadFormatter]. *)
Theorem resolveFormatter_cases
    (getRulesMetaForResults : heap -> loc -> value)
    (body : value -> heap -> loc -> formatting)
    (dir : string) (formatter : value) :
  let exposesFormat :=
    isObject formatter = true /\ typeof (getProp formatter "format") = TFunction in
  (exposesFormat -> resolveFormatter dir formatter = Given formatter)
  /\ (~ exposesFormat -> typeof formatter = TFunction ->
      resolveFormatter dir formatter = Wrapper dir formatter
      /\ forall (h : heap) results refs lookups,
           resultsAt h results = Some refs ->
           Forall (fun ref => is_Some (resultAt h ref)) refs ->
           exists sorted lookups',
             let h' := <[results := ResultArray sorted]> h in
             let todo := body formatter h' results in
             format getRulesMetaForResults body dir formatter results h lookups
             = Some (answer (getRulesMetaForResults h' results) dir todo, h', lookups')
             /\ sorted ≡ₚ refs
             /\ StronglySorted (keyOrdered (pathAt h)) sorted
             /\ lookups' = (if readsRulesMeta dir todo then S lookups else lookups)
             /\ (lookups' <= S lookups)%nat)
  /\ (~ exposesFormat -> typeof formatter <> TFunction ->
      resolveFormatter dir formatter = LoadFormatter formatter).
Proof.
  intros exposesFormat. subst exposesFormat. unfold resolveFormatter.
  split; [|split].
  - intros [-> ->]. done.
  - intros Hno Hfun.
    assert (isObject formatter
            && match typeof (getProp formatter "format") with
               | TFunction => true
               | _ => false
               end = false) as ->.
    { apply not_true_is_false. intros [H1 H2]%andb_true_iff. apply Hno.
      split; [done|]. by destruct (typeof (getProp formatter "format")). }
    rewrite Hfun. split; [done|].
    intros h results refs lookups Hrefs Hall.
    destruct (format_run getRulesMetaForResults body h dir formatter results refs lookups
                Hrefs Hall) as (sorted & Hrun & Hperm & Hsorted & _).
    exists sorted. eexists. split; [exact Hrun|].
    split; [exact Hperm|]. split; [exact Hsorted|]. split; [reflexivity|].
    destruct (readsRulesMeta _ _); lia.
  - intros Hno Hfun.
    assert (isObject formatter
            && match typeof (getProp formatter "format") with
               | TFunction => true
               | _ => false
               end = false) as ->.
    { apply not_true_is_false. intros [H1 H2]%andb_true_iff. apply Hno.
      split; [done|]. by destruct (typeof (getProp formatter "format")). }
    by destruct (typeof formatter).
Qed.

(** Witness of C9: an object with a [format] function, a function and a
    name; and the wrapped function called on the two results collected,
    which reads the metadata twice for one lookup. *)
Lemma resolveFormatter_cases_witness :
  resolveFormatter "/project" (VObj {[ "format" := VFun "format" ∅ ]})
  = Given (VObj {[ "format" := VFun "format" ∅ ]})
  /\ resolveFormatter "/project" (VStr "compact") = LoadFormatter (VStr "compact")
  /\ resolveFormatter "/project" (VFun "byLine" ∅) = Wrapper "/project" (VFun "byLine" ∅)
  /\ exists sorted lookups',
       format (fun _ _ => VStr "meta") metaTwice "/project" (VFun "byLine" ∅)
         5%positive collected 0
       = Some (VArr [VStr "meta"; VStr "/project"; VStr "meta"],
               <[5%positive := ResultArray sorted]> collected, lookups')
       /\ lookups' = 1%nat.
Proof.
  split; [|split].
  - pose proof (resolveFormatter_cases (fun _ _ => VStr "meta") metaTwice "/project"
                  (VObj {[ "format" := VFun "format" ∅ ]})) as H.
    cbv zeta in H. destruct H as (H & _). apply H. split; reflexivity.
  - pose proof (resolveFormatter_cases (fun _ _ => VStr "meta") metaTwice "/project"
                  (VStr "compact")) as H.
    cbv zeta in H. destruct H as (_ & _ & H). apply H.
    + intros [H1 _]. discriminate H1.
    + discriminate.
  - pose proof (resolveFormatter_cases (fun _ _ => VStr "meta") metaTwice "/project"
                  (VFun "byLine" ∅)) as H.
    cbv zeta in H. destruct H as (_ & H & _).
    destruct H as [Hwrap Hformat].
    + intros [_ H2]. discriminate H2.
    + reflexivity.
    + split; [exact Hwrap|].
      destruct (Hformat collected 5%positive [1%positive; 3%positive] 0%nat)
        as (sorted & lookups' & Hrun & _ & _ & Hlookups & _).
      * reflexivity.
      * repeat constructor; by eexists.
      * exists sorted, lookups'. split; [exact Hrun|exact Hlookups].
Defined.

(** C10: the [format] of the wrapper sorts the array it is given
    itself: after the call that same array holds the references it held,
    ordered by file path (results of one path in the order they had),
    no other object is changed and none is created. *)
Theorem format_sorts_in_place
    (getRulesMetaForResults : heap -> loc -> value)
    (body : value -> heap -> loc -> formatting)
    (dir : string) (formatter : value)
    (h : heap) (results : loc) (refs : list loc) (lookups : nat) :
  resultsAt h results = Some refs ->
  Forall (fun ref => is_Some (resultAt h ref)) refs ->
  exists output h' lookups' sorted,
    format getRulesMetaForResults body dir formatter results h lookups
    = Some (output, h', lookups')
    /\ resultsAt h' results = Some sorted
    /\ sorted ≡ₚ refs
    /\ StronglySorted (keyOrdered (pathAt h)) sorted
    /\ (forall path, filter (fun ref => pathAt h ref = path) sorted
                     = filter (fun ref => pathAt h ref = path) refs)
    /\ (forall l, l <> results -> h' !! l = h !! l)
    /\ dom h' = dom h.
Proof.
  intros Hrefs Hall.
  destruct (format_run getRulesMetaForResults body h dir formatter results refs lookups
              Hrefs Hall) as (sorted & Hrun & Hperm & Hsorted & Hstable).
  eexists _, _, _, sorted. split; [exact Hrun|].
  split; [unfold resultsAt; by rewrite lookup_insert_eq|].
  split; [exact Hperm|]. split; [exact Hsorted|]. split; [exact Hstable|].
  split.
  - intros l Hl. by rewrite lookup_insert_ne.
  - rewrite dom_insert_L. unfold resultsAt in Hrefs.
    destruct (h !! results) eqn:E; [|done].
    apply elem_of_dom_2 in E. set_solver.
Qed.

(** Witness of C10: the array that listed [/project/src/a.js] before
    [/project/lib/b.js] lists them the other way round after the call. *)
Lemma format_sorts_in_place_witness :
  resultsAt collected 5%positive = Some [1%positive; 3%positive]
  /\ exists output h' lookups',
       format (fun _ _ => VStr "meta") metaTwice "/project" (VFun "byLine" ∅)
         5%positive collected 0
       = Some (output, h', lookups')
       /\ resultsAt h' 5%positive = Some [3%positive; 1%positive].
Proof.
  split; [reflexivity|].
  destruct (format_sorts_in_place (fun _ _ => VStr "meta") metaTwice "/project"
              (VFun "byLine" ∅) collected 5%positive [1%positive; 3%positive] 0%nat)
    as (output & h' & lookups' & sorted & Hrun & Hat & _).
  - reflexivity.
  - repeat constructor; by eexists.
  - exists output, h', lookups'. split; [exact Hrun|].
    assert (Hcomputed :
              format (fun _ _ => VStr "meta") metaTwice "/project" (VFun "byLine" ∅)
                5%positive collected 0
              = Some (VArr [VStr "meta"; VStr "/project"; VStr "meta"],
                      <[5%positive := ResultArray [3%positive; 1%positive]]> collected,
                      1%nat)).
    { vm_compute. reflexivity. }
    rewrite Hcomputed in Hrun. injection Hrun as _ <- _.
    reflexivity.
Defined.

End FormatterSpec.

(** * Further properties *)

Module MigratedFacts.
Import Options OptionsFacts BooleanMapFacts MigrationFacts MigrationOutcomes Migrated.

Lemma migrateOption_id_lookup oldName newName st st' :
  migrateOption oldName newName Ok st = Ok st' ->
  overrideConfig st' !! newName
  = overlay (get (eslintOptions st) oldName) (overrideConfig st !! newName).
Proof.
  intros H. apply migrateOption_inv in H as [_ H]. unfold overlay.
  destruct (defined _).
  - destruct H as (converted & [= <-] & ->). apply lookup_insert_eq.
  - by rewrite H.
Qed.

Lemma migrateOption_list_lookup oldName newName d st st' :
  migrateOption oldName newName (fun v => toBooleanMap v d oldName) st = Ok st' ->
  if defined (get (eslintOptions st) oldName)
  then exists converted,
         toBooleanMap (get (eslintOptions st) oldName) d oldName = Ok converted
         /\ overrideConfig st' !! newName = Some converted
  else overrideConfig st' !! newName = overrideConfig st !! newName.
Proof.
  intros H. apply migrateOption_inv in H as [_ H].
  destruct (defined _).
  - destruct H as (converted & Hc & ->). exists converted.
    split; [done|apply lookup_insert_eq].
  - by rewrite H.
Qed.

(** What [migrateOptions] returns for an options object, property by
    property of the engine's options and of [overrideConfig]. *)
Lemma migrateOptions_Ok_lookups rawESLint props ret :
  migrateOptions (OptionsObject rawESLint props) = Ok ret ->
  exists eo oc,
    ret = returnValue rawESLint props eo oc
    /\ Forall (fun name => eo !! name = None) migratedAway
    /\ (forall key, key ∉ special -> eo !! key = props !! key)
    /\ eo !! "overrideConfigFile"
       = overlay (get props "configFile") (props !! "overrideConfigFile")
    /\ eo !! "plugins"
       = (if isArray (get props "plugins") then None else props !! "plugins")
    /\ (forall key, key ∉ targets -> oc !! key = configBase props !! key)
    /\ oc !! "extends" = overlay (get props "extends") (configBase props !! "extends")
    /\ oc !! "ignorePatterns"
       = overlay (get props "ignorePattern") (configBase props !! "ignorePatterns")
    /\ oc !! "parser" = overlay (get props "parser") (configBase props !! "parser")
    /\ oc !! "parserOptions"
       = overlay (get props "parserOptions") (configBase props !! "parserOptions")
    /\ oc !! "rules" = overlay (get props "rules") (configBase props !! "rules")
    /\ oc !! "plugins"
       = (if isArray (get props "plugins") then Some (get props "plugins")
          else configBase props !! "plugins")
    /\ (defined (get props "envs") = false -> oc !! "env" = configBase props !! "env")
    /\ (defined (get props "globals") = false ->
        oc !! "globals" = configBase props !! "globals").
Proof.
  unfold migrateOptions.
  destruct (List.filter (hasOwn props) forbiddenOptions) as [|bad others] eqn:Hbad;
    [|discriminate].
  cbn [length Nat.eqb negb].
  destruct (negb (nullish _) && negb _) eqn:Hconfig; [discriminate|].
  fold (configBase props).
  set (st0 := migrateConfigFile _).
  next_step st1 H1; [|discriminate].
  next_step st2 H2; [|discriminate].
  next_step st3 H3; [|discriminate].
  next_step st4 H4; [|discriminate].
  next_step st5 H5; [|discriminate].
  next_step st6 H6; [|discriminate].
  destruct (if isArray _ then _ else _) as [st7|] eqn:H7; [|discriminate].
  cbn [mbind outcome_bind].
  next_step st8 H8; [|discriminate].
  intros [= <-]. exists (eslintOptions st8), (overrideConfig st8).
  assert (Hst7 : forall key, key <> "plugins" ->
            eslintOptions st7 !! key = eslintOptions st6 !! key).
  { intros key Hkey. revert H7. destruct (isArray _); intros H7.
    - by options_before H7.
    - by injection H7 as ->. }
  assert (Hoc7 : forall key, key <> "plugins" ->
            overrideConfig st7 !! key = overrideConfig st6 !! key).
  { intros key Hkey. revert H7. destruct (isArray _); intros H7.
    - by config_before H7.
    - by injection H7 as ->. }
  assert (Hoc0 : overrideConfig st0 = configBase props).
  { subst st0. unfold migrateConfigFile. by destruct (defined _). }
  assert (Hsix : forall key, key <> "plugins" ->
            eslintOptions st6 !! key
            = if decide (key ∈ ["envs"; "extends"; "globals"; "ignorePattern";
                                "parser"; "parserOptions"])
              then None else eslintOptions st0 !! key).
  { intros key Hkey.
    rewrite (migrateOption_options _ _ _ _ _ key H6).
    rewrite (migrateOption_options _ _ _ _ _ key H5).
    rewrite (migrateOption_options _ _ _ _ _ key H4).
    rewrite (migrateOption_options _ _ _ _ _ key H3).
    rewrite (migrateOption_options _ _ _ _ _ key H2).
    rewrite (migrateOption_options _ _ _ _ _ key H1).
    repeat case_decide; try done; set_solver. }
  assert (Hget : forall key,
            key ∈ ["envs"; "extends"; "globals"; "ignorePattern"; "parser";
                   "parserOptions"; "plugins"; "rules"] ->
            eslintOptions st0 !! key = props !! key).
  { intros key Hkey. subst st0. apply initial_options.
    rewrite !elem_of_cons, elem_of_nil in Hkey.
    destruct Hkey as [->|[->|[->|[->|[->|[->|[->|[->|[]]]]]]]]]; set_solver. }
  assert (Hplugins : get (eslintOptions st6) "plugins" = get props "plugins").
  { unfold get. options_before H6. options_before H5. options_before H4.
    options_before H3. options_before H2. options_before H1.
    by rewrite Hget by set_solver. }
  rewrite Hplugins in H7.
  split; [reflexivity|].
  split.
  { unfold migratedAway. repeat apply Forall_cons_2; try apply Forall_nil_2;
      options_before H8; rewrite Hst7 by done;
      options_before H6; options_before H5; options_before H4;
      options_before H3; options_before H2; options_before H1;
      apply initial_options_gone; set_solver. }
  split.
  { intros key Hkey. unfold special in Hkey. rewrite !not_elem_of_cons in Hkey.
    destruct Hkey as (?&?&?&?&?&?&?&?&?&?&?&?&?&?&_).
    rewrite (migrateOption_options _ _ _ _ _ key H8), decide_False by done.
    rewrite Hst7, Hsix by done. rewrite decide_False by set_solver.
    subst st0. apply initial_options. set_solver. }
  split.
  { options_before H8. rewrite Hst7, Hsix by done. rewrite decide_False by set_solver.
    subst st0. unfold migrateConfigFile, overlay. cbn [eslintOptions].
    replace (get _ "configFile") with (get props "configFile")
      by (unfold get; by rewrite !lookup_delete_ne by done).
    destruct (defined (get props "configFile")); simpl.
    - apply lookup_insert_eq.
    - by rewrite !lookup_delete_ne by done. }
  split.
  { options_before H8. revert H7. destruct (isArray _); intros H7.
    - options_before H7.
    - injection H7 as <-. options_before H6. options_before H5. options_before H4.
      options_before H3. options_before H2. options_before H1.
      by rewrite Hget by set_solver. }
  assert (Hoc7p : overrideConfig st7 !! "plugins"
                  = if isArray (get props "plugins") then Some (get props "plugins")
                    else overrideConfig st6 !! "plugins").
  { revert H7. destruct (isArray (get props "plugins")) eqn:Harr; intros H7.
    - rewrite (migrateOption_id_lookup _ _ _ _ H7), Hplugins. unfold overlay.
      by destruct (get props "plugins").
    - by injection H7 as <-. }
  split.
  { intros key Hkey. unfold targets in Hkey. rewrite !not_elem_of_cons in Hkey.
    destruct Hkey as (?&?&?&?&?&?&?&?&_).
    config_before H8. rewrite Hoc7 by done.
    config_before H6. config_before H5. config_before H4.
    config_before H3. config_before H2. config_before H1. by rewrite Hoc0. }
  split.
  { config_before H8. rewrite Hoc7 by done.
    config_before H6. config_before H5. config_before H4. config_before H3.
    rewrite (migrateOption_id_lookup _ _ _ _ H2). config_before H1. rewrite Hoc0.
    f_equal. unfold get. options_before H1. by rewrite Hget by set_solver. }
  split.
  { config_before H8. rewrite Hoc7 by done.
    config_before H6. config_before H5.
    rewrite (migrateOption_id_lookup _ _ _ _ H4).
    config_before H3. config_before H2. config_before H1. rewrite Hoc0.
    f_equal. unfold get. options_before H3. options_before H2. options_before H1.
    by rewrite Hget by set_solver. }
  split.
  { config_before H8. rewrite Hoc7 by done.
    config_before H6.
    rewrite (migrateOption_id_lookup _ _ _ _ H5).
    config_before H4. config_before H3. config_before H2. config_before H1.
    rewrite Hoc0.
    f_equal. unfold get. options_before H4. options_before H3. options_before H2.
    options_before H1. by rewrite Hget by set_solver. }
  split.
  { config_before H8. rewrite Hoc7 by done.
    rewrite (migrateOption_id_lookup _ _ _ _ H6).
    config_before H5. config_before H4. config_before H3. config_before H2.
    config_before H1. rewrite Hoc0.
    f_equal. unfold get. options_before H5. options_before H4. options_before H3.
    options_before H2. options_before H1. by rewrite Hget by set_solver. }
  split.
  { rewrite (migrateOption_id_lookup _ _ _ _ H8). rewrite Hoc7 by done.
    config_before H6. config_before H5. config_before H4. config_before H3.
    config_before H2. config_before H1. rewrite Hoc0.
    f_equal. unfold get. rewrite Hst7, Hsix by done. rewrite decide_False by set_solver.
    by rewrite Hget by set_solver. }
  split.
  { config_before H8. rewrite Hoc7p.
    config_before H6. config_before H5. config_before H4. config_before H3.
    config_before H2. config_before H1. by rewrite Hoc0. }
  split.
  { intros Hdef. config_before H8. rewrite Hoc7 by done.
    config_before H6. config_before H5. config_before H4. config_before H3.
    config_before H2.
    pose proof (migrateOption_list_lookup _ _ _ _ _ H1) as Hl.
    replace (get (eslintOptions st0) "envs") with (get props "envs") in Hl
      by (unfold get; by rewrite Hget by set_solver).
    rewrite Hdef in Hl. by rewrite Hl, Hoc0. }
  { intros Hdef. config_before H8. rewrite Hoc7 by done.
    config_before H6. config_before H5. config_before H4.
    pose proof (migrateOption_list_lookup _ _ _ _ _ H3) as Hl.
    replace (get (eslintOptions st2) "globals") with (get props "globals") in Hl
      by (unfold get; options_before H2; options_before H1;
          by rewrite Hget by set_solver).
    rewrite Hdef in Hl. rewrite Hl. config_before H2. config_before H1.
    by rewrite Hoc0. }
Qed.

End MigratedFacts.

Module MigrationSpec.
Import Options OptionsFacts BooleanMapFacts MigrationFacts MigrationOutcomes OptionsSpec.
Import Migrated MigratedFacts.

Lemma special_not_overrideConfig key : key ∉ special -> key <> "overrideConfig".
Proof. unfold special. rewrite not_elem_of_cons. tauto. Qed.

(** An option that [migrateOptions] has no rule for reaches the engine
    as it was given: for an options object that is accepted, every
    property other than the ones the migration reads, removes or sets is
    in the returned engine options exactly when it is in the object, with
    the same value. *)
Theorem other_options_pass_through (rawESLint : value) (props : gmap string value)
    (key : string) :
  accepted props = true ->
  key ∉ special ->
  exists ret eo,
    migrateOptions (OptionsObject rawESLint props) = Ok ret
    /\ ret !! "eslintOptions" = Some (VObj eo)
    /\ eo !! key = props !! key.
Proof.
  intros Hacc Hkey.
  destruct (migrateOptions_total rawESLint props Hacc) as [ret Hret].
  destruct (migrateOptions_Ok_lookups _ _ _ Hret) as (eo & oc & -> & _ & Hother & _).
  eexists _, _. split; [exact Hret|].
  split; [apply returnValue_eslintOptions|].
  rewrite lookup_insert_ne by (symmetry; by apply special_not_overrideConfig).
  by apply Hother.
Qed.

Lemma other_options_pass_through_witness :
  exists ret eo,
    migrateOptions (OptionsObject VUndef (<["fix" := VBool true]> bothSynonyms)) = Ok ret
    /\ ret !! "eslintOptions" = Some (VObj eo)
    /\ eo !! "fix" = Some (VBool true).
Proof.
  destruct (other_options_pass_through VUndef (<["fix" := VBool true]> bothSynonyms) "fix")
    as (ret & eo & Hret & Heo & Hfix).
  - vm_compute. reflexivity.
  - unfold special. rewrite !not_elem_of_cons, elem_of_nil. repeat split; try discriminate. tauto.
  - exists ret, eo. split; [exact Hret|]. split; [exact Heo|].
    rewrite Hfix. reflexivity.
Defined.

(** The legacy [configFile] option becomes [overrideConfigFile]: when
    it is defined it is removed and its value is stored under
    [overrideConfigFile], in the place of an [overrideConfigFile] that
    was given as well, which is what the call with the path alone
    returns as engine options; when it is not defined an
    [overrideConfigFile] that was given is kept. *)
Theorem configFile_renamed (rawESLint : value) (props : gmap string value) :
  accepted props = true ->
  exists ret eo,
    migrateOptions (OptionsObject rawESLint props) = Ok ret
    /\ ret !! "eslintOptions" = Some (VObj eo)
    /\ eo !! "configFile" = None
    /\ (defined (get props "configFile") = true ->
        eo !! "overrideConfigFile" = Some (get props "configFile"))
    /\ (defined (get props "configFile") = false ->
        eo !! "overrideConfigFile" = props !! "overrideConfigFile")
    /\ (forall path, get props "configFile" = VStr path ->
        exists shorthand eo',
          migrateOptions (ConfigPath path) = Ok shorthand
          /\ shorthand !! "eslintOptions" = Some (VObj eo')
          /\ eo' !! "overrideConfigFile" = eo !! "overrideConfigFile").
Proof.
  intros Hacc.
  destruct (migrateOptions_total rawESLint props Hacc) as [ret Hret].
  destruct (migrateOptions_Ok_lookups _ _ _ Hret) as (eo & oc & -> & Haway & _ & Hfile & _).
  eexists _, _. split; [exact Hret|].
  split; [apply returnValue_eslintOptions|].
  rewrite !lookup_insert_ne by done. rewrite Hfile. unfold overlay.
  split.
  { unfold migratedAway in Haway. rewrite !Forall_cons in Haway. tauto. }
  split; [by intros ->|]. split; [by intros ->|].
  intros path Hpath. rewrite Hpath. simpl.
  eexists _, _. split; [reflexivity|].
  split; [apply lookup_singleton_eq|]. apply lookup_singleton_eq.
Qed.

Lemma configFile_renamed_witness :
  exists ret eo,
    migrateOptions (OptionsObject VUndef
                      (<["configFile" := VStr "legacy.json"]>
                         (<["overrideConfigFile" := VStr "new.json"]> ∅))) = Ok ret
    /\ ret !! "eslintOptions" = Some (VObj eo)
    /\ eo !! "overrideConfigFile" = Some (VStr "legacy.json")
    /\ eo !! "configFile" = None.
Proof.
  destruct (MigrationSpec.configFile_renamed VUndef
              (<["configFile" := VStr "legacy.json"]>
                 (<["overrideConfigFile" := VStr "new.json"]> ∅)))
    as (ret & eo & Hret & Heo & Hgone & Hdef & _).
  - vm_compute. reflexivity.
  - exists ret, eo. split; [exact Hret|]. split; [exact Heo|].
    split; [|exact Hgone]. apply Hdef. reflexivity.
Defined.

(** The five legacy options that are moved as they are ([extends],
    [ignorePattern] under the name [ignorePatterns], [parser],
    [parserOptions], [rules]): for an options object that is accepted,
    the option is removed from the engine's options; when it is defined
    its value is what [overrideConfig] has under the new name, whatever
    the [overrideConfig] given had there; when it is not defined,
    [overrideConfig] has what the one given had.  A property of the
    [overrideConfig] given that no legacy option is stored under is
    copied as it is. *)
Theorem legacy_options_overlay (rawESLint : value) (props : gmap string value) :
  accepted props = true ->
  exists ret eo oc,
    migrateOptions (OptionsObject rawESLint props) = Ok ret
    /\ ret !! "eslintOptions" = Some (VObj eo)
    /\ eo !! "overrideConfig" = Some (VObj oc)
    /\ Forall (fun names : string * string =>
                 eo !! names.1 = None
                 /\ (defined (get props names.1) = true ->
                     oc !! names.2 = Some (get props names.1))
                 /\ (defined (get props names.1) = false ->
                     oc !! names.2 = configBase props !! names.2))
         [ ("extends", "extends"); ("ignorePattern", "ignorePatterns");
           ("parser", "parser"); ("parserOptions", "parserOptions");
           ("rules", "rules") ]
    /\ (forall key, key ∉ targets -> oc !! key = configBase props !! key).
Proof.
  intros Hacc.
  destruct (migrateOptions_total rawESLint props Hacc) as [ret Hret].
  destruct (migrateOptions_Ok_lookups _ _ _ Hret)
    as (eo & oc & -> & Haway & _ & _ & _ & Hbase & He & Hi & Hp & Hpo & Hr & _).
  eexists _, _, oc. split; [exact Hret|].
  split; [apply returnValue_eslintOptions|].
  split; [apply lookup_insert_eq|].
  split; [|exact Hbase].
  unfold migratedAway in Haway. rewrite !Forall_cons in Haway.
  destruct Haway as (_ & _ & _ & _ & _ & Ge & _ & Gi & Gp & Gpo & Gr & _).
  unfold overlay in *.
  repeat apply Forall_cons_2; try apply Forall_nil_2; cbn [fst snd];
    (split; [by rewrite lookup_insert_ne|]).
  - rewrite He. split; by intros ->.
  - rewrite Hi. split; by intros ->.
  - rewrite Hp. split; by intros ->.
  - rewrite Hpo. split; by intros ->.
  - rewrite Hr. split; by intros ->.
Qed.

Lemma legacy_options_overlay_witness :
  exists ret eo oc,
    migrateOptions (OptionsObject VUndef rulesOverConfig) = Ok ret
    /\ ret !! "eslintOptions" = Some (VObj eo)
    /\ eo !! "overrideConfig" = Some (VObj oc)
    /\ eo !! "rules" = None
    /\ oc !! "rules" = Some (VObj {[ "semi" := VNum 2 ]})
    /\ oc !! "root" = Some (VBool true).
Proof.
  destruct (legacy_options_overlay VUndef rulesOverConfig)
    as (ret & eo & oc & Hret & Heo & Hoc & Hall & Hbase).
  - vm_compute. reflexivity.
  - rewrite !Forall_cons in Hall.
    destruct Hall as (_ & _ & _ & _ & (Hgone & Hdef & _) & _).
    exists ret, eo, oc. split; [exact Hret|]. split; [exact Heo|].
    split; [exact Hoc|]. split; [exact Hgone|].
    split; [apply Hdef; reflexivity|].
    rewrite Hbase.
    + reflexivity.
    + unfold targets. rewrite !not_elem_of_cons, elem_of_nil.
      repeat split; try discriminate. tauto.
Defined.

(** [plugins] is a legacy option only as an array: an array is removed
    from the engine's options and stored under [overrideConfig.plugins];
    any other value stays in the engine's options, and
    [overrideConfig.plugins] is what the [overrideConfig] given had. *)
Theorem plugins_migrated_as_array (rawESLint : value) (props : gmap string value) :
  accepted props = true ->
  exists ret eo oc,
    migrateOptions (OptionsObject rawESLint props) = Ok ret
    /\ ret !! "eslintOptions" = Some (VObj eo)
    /\ eo !! "overrideConfig" = Some (VObj oc)
    /\ (isArray (get props "plugins") = true ->
        eo !! "plugins" = None /\ oc !! "plugins" = Some (get props "plugins"))
    /\ (isArray (get props "plugins") = false ->
        eo !! "plugins" = props !! "plugins"
        /\ oc !! "plugins" = configBase props !! "plugins").
Proof.
  intros Hacc.
  destruct (migrateOptions_total rawESLint props Hacc) as [ret Hret].
  destruct (migrateOptions_Ok_lookups _ _ _ Hret)
    as (eo & oc & -> & _ & _ & _ & Heo & _ & _ & _ & _ & _ & _ & Hoc & _).
  eexists _, _, oc. split; [exact Hret|].
  split; [apply returnValue_eslintOptions|].
  split; [apply lookup_insert_eq|].
  rewrite lookup_insert_ne by done. rewrite Heo, Hoc.
  split; by intros ->.
Qed.

Lemma plugins_migrated_as_array_witness :
  (exists ret eo oc,
     migrateOptions (OptionsObject VUndef {[ "plugins" := VArr [VStr "react"] ]}) = Ok ret
     /\ ret !! "eslintOptions" = Some (VObj eo)
     /\ eo !! "overrideConfig" = Some (VObj oc)
     /\ eo !! "plugins" = None
     /\ oc !! "plugins" = Some (VArr [VStr "react"]))
  /\ (exists ret eo oc,
        migrateOptions (OptionsObject VUndef {[ "plugins" := VObj ∅ ]}) = Ok ret
        /\ ret !! "eslintOptions" = Some (VObj eo)
        /\ eo !! "overrideConfig" = Some (VObj oc)
        /\ eo !! "plugins" = Some (VObj ∅)
        /\ oc !! "plugins" = None).
Proof.
  split.
  - destruct (plugins_migrated_as_array VUndef {[ "plugins" := VArr [VStr "react"] ]})
      as (ret & eo & oc & Hret & Heo & Hoc & Harr & _); [vm_compute; reflexivity|].
    destruct Harr as [H1 H2]; [reflexivity|].
    exists ret, eo, oc. repeat split; assumption.
  - destruct (plugins_migrated_as_array VUndef {[ "plugins" := VObj ∅ ]})
      as (ret & eo & oc & Hret & Heo & Hoc & _ & Hno); [vm_compute; reflexivity|].
    destruct Hno as [H1 H2]; [reflexivity|].
    exists ret, eo, oc. repeat split; assumption.
Defined.

End MigrationSpec.

Module ValidationSpec.
Import Options OptionsFacts BooleanMapFacts MigrationFacts MigrationOutcomes OptionsSpec.
Import Migrated MigratedFacts.

Lemma toBooleanMap_not_array v d name :
  truthy v = true -> isArray v = false ->
  toBooleanMap v d name
  = Throw (InvalidOptionsError ("Option " ++ name ++ " must be an array")).
Proof. intros Ht Ha. unfold toBooleanMap. by rewrite Ht, Ha. Qed.

Lemma truthy_defined v : truthy v = true -> defined v = true.
Proof. by destruct v. Qed.

Lemma migrateOption_convert_throw oldName newName convert st e :
  defined (get (eslintOptions st) oldName) = true ->
  convert (get (eslintOptions st) oldName) = Throw e ->
  migrateOption oldName newName convert st = Throw e.
Proof. intros Hd Hc. unfold migrateOption. by rewrite Hd, Hc. Qed.

(** The checks of [migrateOptions] come in a fixed order, and the first
    that fails decides the error.  Without a forbidden option, an
    [overrideConfig] that is neither [null], [undefined] nor of type
    object is refused with the message about [overrideConfig], whatever
    [envs] and [globals] are; with a valid [overrideConfig], a truthy
    [envs] that is not an array is refused with the message about
    [envs], whatever [globals] is; and with a valid [envs] as well, a
    truthy [globals] that is not an array is refused with the message
    about [globals]. *)
Theorem validation_order (rawESLint : value) (props : gmap string value) :
  List.filter (hasOwn props) forbiddenOptions = [] ->
  let validConfig :=
    nullish (get props "overrideConfig")
    || isObjectType (typeof (get props "overrideConfig")) in
  let notArray v := truthy v && negb (isArray v) in
  (validConfig = false ->
   migrateOptions (OptionsObject rawESLint props)
   = Throw (InvalidOptionsError "Option overrideConfig must be an object or null"))
  /\ (validConfig = true -> notArray (get props "envs") = true ->
      migrateOptions (OptionsObject rawESLint props)
      = Throw (InvalidOptionsError "Option envs must be an array"))
  /\ (validConfig = true -> convertible (get props "envs") = true ->
      notArray (get props "globals") = true ->
      migrateOptions (OptionsObject rawESLint props)
      = Throw (InvalidOptionsError "Option globals must be an array")).
Proof.
  intros Hbad validConfig notArray. subst validConfig notArray.
  unfold migrateOptions. rewrite Hbad. cbn [length Nat.eqb negb].
  assert (Hcheck : negb (nullish (get props "overrideConfig"))
                   && negb match typeof (get props "overrideConfig") with
                           | TObject => true
                           | _ => false
                           end
                   = negb (nullish (get props "overrideConfig")
                           || isObjectType (typeof (get props "overrideConfig")))).
  { rewrite negb_orb. by destruct (typeof _). }
  rewrite Hcheck.
  split; [by intros ->|].
  set (st0 := migrateConfigFile _).
  assert (Henvs : get (eslintOptions st0) "envs" = get props "envs").
  { unfold get. subst st0. by rewrite initial_options by set_solver. }
  split.
  - intros -> [Ht Ha]%andb_true_iff. cbn [negb]. apply negb_true_iff in Ha.
    erewrite migrateOption_convert_throw; [done|..].
    + rewrite Henvs. by apply truthy_defined.
    + rewrite Henvs. by apply toBooleanMap_not_array.
  - intros -> Hconv [Ht Ha]%andb_true_iff. cbn [negb]. apply negb_true_iff in Ha.
    destruct (migrateOption_total "envs" "env"
                (fun envs => toBooleanMap envs true "envs") st0) as [st1 H1].
    { intros _. rewrite Henvs. by apply toBooleanMap_convertible. }
    rewrite H1. cbn [mbind outcome_bind].
    destruct (migrateOption_total "extends" "extends" Ok st1) as [st2 H2]; [by eauto|].
    rewrite H2. cbn [mbind outcome_bind].
    assert (Hglobals : get (eslintOptions st2) "globals" = get props "globals").
    { unfold get. options_before H2. options_before H1.
      subst st0. by rewrite initial_options by set_solver. }
    erewrite migrateOption_convert_throw; [done|..].
    + rewrite Hglobals. by apply truthy_defined.
    + rewrite Hglobals. by apply toBooleanMap_not_array.
Qed.

Lemma validation_order_witness :
  migrateOptions (OptionsObject VUndef
                    (<["overrideConfig" := VStr "config.json"]>
                       {[ "envs" := VStr "browser" ]}))
  = Throw (InvalidOptionsError "Option overrideConfig must be an object or null")
  /\ migrateOptions (OptionsObject VUndef
                       (<["envs" := VStr "browser"]> {[ "globals" := VStr "$" ]}))
     = Throw (InvalidOptionsError "Option envs must be an array")
  /\ migrateOptions (OptionsObject VUndef
                       (<["envs" := VArr [VStr "browser"]]> {[ "globals" := VStr "$" ]}))
     = Throw (InvalidOptionsError "Option globals must be an array").
Proof.
  split; [|split].
  - pose proof (validation_order VUndef
                  (<["overrideConfig" := VStr "config.json"]>
                     {[ "envs" := VStr "browser" ]})) as H.
    cbv zeta in H. destruct H as (H & _); [reflexivity|]. apply H. reflexivity.
  - pose proof (validation_order VUndef
                  (<["envs" := VStr "browser"]> {[ "globals" := VStr "$" ]})) as H.
    cbv zeta in H. destruct H as (_ & H & _); [reflexivity|]. apply H; reflexivity.
  - pose proof (validation_order VUndef
                  (<["envs" := VArr [VStr "browser"]]> {[ "globals" := VStr "$" ]})) as H.
    cbv zeta in H. destruct H as (_ & _ & H); [reflexivity|]. apply H; reflexivity.
Defined.

(** What [migrateOptions] returns for an options object that is
    accepted has the four properties [ESLint], [eslintOptions], [quiet]
    and [warnIgnored] and no other.  [quiet] is the one given; [ESLint]
    is the value under the [ESLintKey] symbol when that is truthy and the
    engine's class otherwise; and the engine's options always have an
    [overrideConfig] that is an object, the empty one when none was given
    or [null] was. *)
Theorem returned_shape (rawESLint : value) (props : gmap string value) :
  accepted props = true ->
  exists ret eo oc,
    migrateOptions (OptionsObject rawESLint props) = Ok ret
    /\ dom ret = {[ "ESLint"; "eslintOptions"; "quiet"; "warnIgnored" ]}
    /\ ret !! "quiet" = Some (get props "quiet")
    /\ ret !! "ESLint" = Some (if truthy rawESLint then rawESLint else engineESLint)
    /\ ret !! "eslintOptions" = Some (VObj eo)
    /\ eo !! "quiet" = None
    /\ eo !! "overrideConfig" = Some (VObj oc)
    /\ (nullish (get props "overrideConfig") = true ->
        forall key, key ∉ targets -> oc !! key = None).
Proof.
  intros Hacc.
  destruct (migrateOptions_total rawESLint props Hacc) as [ret Hret].
  destruct (migrateOptions_Ok_lookups _ _ _ Hret)
    as (eo & oc & -> & Haway & _ & _ & _ & Hbase & _).
  eexists _, _, oc. split; [exact Hret|].
  split.
  { unfold returnValue. rewrite !dom_insert_L, dom_empty_L. set_solver. }
  split.
  { unfold returnValue. rewrite !lookup_insert_ne by done. apply lookup_insert_eq. }
  split; [apply lookup_insert_eq|].
  split; [apply returnValue_eslintOptions|].
  split.
  { rewrite lookup_insert_ne by done.
    unfold migratedAway in Haway. rewrite !Forall_cons in Haway. tauto. }
  split; [apply lookup_insert_eq|].
  intros Hnull key Hkey. rewrite Hbase by done. unfold configBase. by rewrite Hnull.
Qed.

Lemma returned_shape_witness :
  exists ret eo oc,
    migrateOptions (OptionsObject VNull (<["quiet" := VBool true]> bothSynonyms)) = Ok ret
    /\ ret !! "quiet" = Some (VBool true)
    /\ ret !! "ESLint" = Some engineESLint
    /\ ret !! "eslintOptions" = Some (VObj eo)
    /\ eo !! "overrideConfig" = Some (VObj oc)
    /\ oc !! "root" = None.
Proof.
  destruct (returned_shape VNull (<["quiet" := VBool true]> bothSynonyms))
    as (ret & eo & oc & Hret & _ & Hquiet & HESLint & Heo & _ & Hoc & Hempty).
  - vm_compute. reflexivity.
  - exists ret, eo, oc. split; [exact Hret|]. split; [exact Hquiet|].
    split; [exact HESLint|]. split; [exact Heo|]. split; [exact Hoc|].
    apply Hempty; [reflexivity|].
    unfold targets. rewrite !not_elem_of_cons, elem_of_nil.
    repeat split; try discriminate. tauto.
Defined.

End ValidationSpec.

Module BooleanMapSpec.
Import Options OptionsFacts BooleanMapFacts MigrationFacts MigrationOutcomes OptionsSpec.
Import Migrated MigratedFacts.

Lemma last_filter_is_Some {A} (P : A -> Prop) `{forall x, Decision (P x)} (l : list A) :
  is_Some (last (filter P l)) <-> exists x, x ∈ l /\ P x.
Proof.
  rewrite <- not_eq_None_Some, last_None. split.
  - intros Hne. destruct (filter P l) as [|x k] eqn:E; [done|].
    exists x. assert (x ∈ filter P l) as Hin by (rewrite E; left).
    apply list_elem_of_filter in Hin. tauto.
  - intros (x & Hx & HP) E.
    assert (x ∈ filter P l) as Hin by (apply list_elem_of_filter; tauto).
    rewrite E in Hin. by apply elem_of_nil in Hin.
Qed.

(** The map that [toBooleanMap] makes of a non-empty array of strings
    has a key for every entry key but ["__proto__"] and no other key, and
    a boolean under every key. *)
Theorem toBooleanMap_keys (entries : list string) (defaultValue : bool)
    (displayName : string) :
  entries <> [] ->
  exists map : gmap string value,
    toBooleanMap (VArr (VStr <$> entries)) defaultValue displayName = Ok (VObj map)
    /\ (forall key, is_Some (map !! key)
                    <-> key <> "__proto__" /\ key ∈ entryKey <$> entries)
    /\ (forall key v, map !! key = Some v -> exists b, v = VBool b).
Proof.
  intros Hne. exists (foldl (addEntry defaultValue) ∅ entries).
  split; [rewrite toBooleanMap_strings; by destruct entries|].
  split.
  - intros key. destruct (decide (key = "__proto__")) as [->|Hkey].
    + rewrite foldl_addEntry_proto, lookup_empty. split; [by intros [? ?]|tauto].
    + rewrite foldl_addEntry_lookup by done.
      rewrite list_elem_of_fmap.
      pose proof (last_filter_is_Some (fun e => entryKey e = key) entries) as Hlast.
      destruct (last _) as [e|].
      * split; [|by eauto]. intros _. split; [done|].
        destruct Hlast as [(x & Hx & <-) _]; [by eauto|]. by exists x.
      * rewrite lookup_empty. split; [by intros [? ?]|].
        intros [_ (x & -> & Hx)]. destruct Hlast as [_ [? Hl]]; [by eauto|done].
  - intros key v. destruct (decide (key = "__proto__")) as [->|Hkey].
    + by rewrite foldl_addEntry_proto, lookup_empty.
    + rewrite foldl_addEntry_lookup by done.
      destruct (last _); [|by rewrite lookup_empty]. intros [= <-]. by eexists.
Qed.

Lemma toBooleanMap_keys_witness :
  exists map : gmap string value,
    toBooleanMap (VArr (VStr <$> ["browser"; "__proto__:true"; "node:false"])) true "envs"
    = Ok (VObj map)
    /\ is_Some (map !! "browser") /\ is_Some (map !! "node")
    /\ map !! "__proto__" = None.
Proof.
  destruct (toBooleanMap_keys ["browser"; "__proto__:true"; "node:false"] true "envs")
    as (map & Hrun & Hkeys & _); [discriminate|].
  exists map. split; [exact Hrun|].
  split; [|split].
  - apply Hkeys. split; [discriminate|]. vm_compute. apply list_elem_of_here.
  - apply Hkeys. split; [discriminate|]. vm_compute.
    apply list_elem_of_further, list_elem_of_further, list_elem_of_here.
  - apply eq_None_not_Some. intros [H _]%Hkeys. by apply H.
Defined.

(** A legacy list that is defined but falsy ([null], [false], [0], the
    empty string) is not an error: for an options object that is accepted
    it is removed from the engine's options, and the property of
    [overrideConfig] it stands for is set to [undefined], in the place of
    what the [overrideConfig] given had there. *)
Theorem falsy_list_resets (rawESLint : value) (props : gmap string value)
    (name target : string) :
  (name = "envs" /\ target = "env") \/ (name = "globals" /\ target = "globals") ->
  accepted props = true ->
  defined (get props name) = true ->
  truthy (get props name) = false ->
  exists ret eo oc,
    migrateOptions (OptionsObject rawESLint props) = Ok ret
    /\ ret !! "eslintOptions" = Some (VObj eo)
    /\ eo !! "overrideConfig" = Some (VObj oc)
    /\ eo !! name = None
    /\ oc !! target = Some VUndef.
Proof.
  intros Hwhich Hacc Hdef Hfalsy.
  destruct (migrateOptions_accepted rawESLint props Hacc)
    as (eo & oc & Hret & Haway & Henvs & Hglobals).
  eexists _, _, oc. split; [exact Hret|].
  split; [apply returnValue_eslintOptions|].
  split; [apply lookup_insert_eq|].
  unfold migratedAway in Haway. rewrite !Forall_cons in Haway.
  destruct Haway as (_ & _ & _ & _ & Hgone1 & _ & Hgone2 & _).
  destruct Hwhich as [[-> ->]|[-> ->]].
  - split; [by rewrite lookup_insert_ne|].
    destruct (Henvs Hdef) as (converted & Hc & ->).
    unfold toBooleanMap in Hc. rewrite Hfalsy in Hc. simpl in Hc. congruence.
  - split; [by rewrite lookup_insert_ne|].
    destruct (Hglobals Hdef) as (converted & Hc & ->).
    unfold toBooleanMap in Hc. rewrite Hfalsy in Hc. simpl in Hc. congruence.
Qed.

Lemma falsy_list_resets_witness :
  exists ret eo oc,
    migrateOptions (OptionsObject VUndef envsNull) = Ok ret
    /\ ret !! "eslintOptions" = Some (VObj eo)
    /\ eo !! "overrideConfig" = Some (VObj oc)
    /\ oc !! "env" = Some VUndef.
Proof.
  destruct (falsy_list_resets VUndef envsNull "envs" "env")
    as (ret & eo & oc & Hret & Heo & Hoc & _ & Henv).
  - left. split; reflexivity.
  - vm_compute. reflexivity.
  - reflexivity.
  - reflexivity.
  - exists ret, eo, oc. repeat split; assumption.
Defined.

End BooleanMapSpec.

Module CountSpec.
Import Results ResultsFacts FilterSpec.

Lemma filter_and_length {A} (p q : A -> bool) (l : list A) :
  (length (List.filter (fun x => p x && q x) l) <= length (List.filter p l))%nat.
Proof.
  induction l as [|x l IH]; simpl; [done|].
  destruct (p x), (q x); simpl; lia.
Qed.

Lemma filter_disjoint_length {A} (p q : A -> bool) (l : list A) :
  (forall x, p x && q x = false) ->
  (length (List.filter p l) + length (List.filter q l) <= length l)%nat.
Proof.
  intros Hpq. induction l as [|x l IH]; simpl; [done|].
  specialize (Hpq x). destruct (p x), (q x); simpl in *; try discriminate; lia.
Qed.

Lemma filterFrom_length {A} (callback : A -> nat -> bool) i (l : list A) :
  (length (filterFrom callback i l) <= length l)%nat.
Proof.
  revert i. induction l as [|x l IH]; intros i; simpl; [done|].
  destruct (callback x i); simpl; [specialize (IH (S i))|specialize (IH (S i))]; lia.
Qed.

Lemma error_not_warning m : isErrorMessage m && isWarningMessage m = false.
Proof. unfold isErrorMessage, isWarningMessage. apply andb_false_iff. lia. Qed.

(** The counts of a result returned by [filterResult] are consistent
    with one another: no message is counted both as an error and as a
    warning, so errors and warnings together are at most the messages
    kept, which are at most the messages there were; and the fixable and
    the fatal errors are among the errors, the fixable warnings among the
    warnings. *)
Theorem filterResult_count_bounds (h : heap) (result : loc) (filter : messageFilter)
    (r : lintResult) (ms : list message) :
  h !! result = Some (ResultObject r) ->
  h !! messages r = Some (MessageArray ms) ->
  exists newResult h' r' kept,
    filterResult result filter h = Some (newResult, h')
    /\ h' !! newResult = Some (ResultObject r')
    /\ h' !! messages r' = Some (MessageArray kept)
    /\ 0 <= fixableErrorCount r' <= errorCount r'
    /\ 0 <= fatalErrorCount r' <= errorCount r'
    /\ 0 <= fixableWarningCount r' <= warningCount r'
    /\ errorCount r' + warningCount r' <= Z.of_nat (length kept)
    /\ (length kept <= length ms)%nat.
Proof.
  intros Hr Hms.
  destruct (filterResult_run h result filter r ms Hr Hms) as (Hrun & Harray & Hnew).
  eexists _, _, _, _. split; [exact Hrun|].
  split; [apply lookup_insert_eq|]. cbn [messages].
  split.
  { rewrite lookup_insert_ne by (intros E; rewrite E, lookup_insert_eq in Hnew; done).
    apply lookup_insert_eq. }
  cbn [errorCount warningCount fixableErrorCount fixableWarningCount fatalErrorCount].
  set (kept := filterFrom _ _ _).
  unfold countErrorMessage, countWarningMessage, countFixableErrorMessage,
    countFixableWarningMessage, countFatalErrorMessage.
  rewrite !reduce_count.
  pose proof (filter_and_length isErrorMessage (fun m => defined (fix_ m)) kept) as Hfe.
  pose proof (filter_and_length isErrorMessage (fun m => truthy (fatal m)) kept) as Hfa.
  pose proof (filter_and_length isWarningMessage (fun m => defined (fix_ m)) kept) as Hfw.
  pose proof (filter_disjoint_length isErrorMessage isWarningMessage kept
                error_not_warning) as Hew.
  pose proof (filterFrom_length
                (fun m i => truthy (filter h result m i (messages r))) 0%nat ms) as Hlen.
  fold kept in Hlen. cbv beta in Hfe, Hfa, Hfw. repeat split; lia.
Qed.

Lemma filterResult_count_bounds_witness :
  exists newResult h' r',
    filterResult 1%positive quietFilter lintedStore = Some (newResult, h')
    /\ h' !! newResult = Some (ResultObject r')
    /\ fatalErrorCount r' <= errorCount r'.
Proof.
  destruct (filterResult_count_bounds lintedStore 1%positive quietFilter linted
              [fixableWarning; syntaxError; fixableWarning])
    as (newResult & h' & r' & kept & Hrun & Hres & _ & _ & [_ Hfatal] & _).
  - reflexivity.
  - reflexivity.
  - exists newResult, h', r'. split; [exact Hrun|]. split; [exact Hres|exact Hfatal].
Defined.

End CountSpec.

Module FilterAgainSpec.
Import Results ResultsFacts FilterSpec.

Lemma filterFrom_by_message (verdict : message -> bool) i (l : list message) :
  filterFrom (fun m _ => verdict m) i l = List.filter verdict l.
Proof.
  revert i. induction l as [|m l IH]; intros i; simpl; [done|].
  by rewrite IH.
Qed.

Lemma filter_filter {A} (p : A -> bool) (l : list A) :
  List.filter p (List.filter p l) = List.filter p l.
Proof.
  induction l as [|x l IH]; simpl; [done|].
  destruct (p x) eqn:E; simpl; [rewrite E|]; by rewrite IH.
Qed.

Lemma filterFrom_ext {A} (f g : A -> nat -> bool) i (l : list A) :
  (forall x j, f x j = g x j) -> filterFrom f i l = filterFrom g i l.
Proof.
  intros Hfg. revert i. induction l as [|x l IH]; intros i; simpl; [done|].
  by rewrite Hfg, IH.
Qed.

(** What [filterResult] returns for a filter whose verdict depends on
    the message alone: the messages that pass, and the store with the
    two new objects. *)
Lemma filterResult_by_message (h : heap) result (filter : messageFilter) verdict r ms :
  (forall h' this m i array, truthy (filter h' this m i array) = verdict m) ->
  h !! result = Some (ResultObject r) ->
  h !! messages r = Some (MessageArray ms) ->
  exists newResult array r',
    filterResult result filter h
    = Some (newResult,
            <[newResult := ResultObject r']>
              (<[array := MessageArray (List.filter verdict ms)]> h))
    /\ h !! array = None
    /\ <[array := MessageArray (List.filter verdict ms)]> h !! newResult = None
    /\ messages r' = array
    /\ filePath r' = filePath r
    /\ errorCount r' = reduce countErrorMessage 0 (List.filter verdict ms)
    /\ warningCount r' = reduce countWarningMessage 0 (List.filter verdict ms)
    /\ fixableErrorCount r' = reduce countFixableErrorMessage 0 (List.filter verdict ms)
    /\ fixableWarningCount r'
       = reduce countFixableWarningMessage 0 (List.filter verdict ms)
    /\ fatalErrorCount r' = reduce countFatalErrorMessage 0 (List.filter verdict ms).
Proof.
  intros Hv Hr Hms.
  destruct (filterResult_run h result filter r ms Hr Hms) as (Hrun & Harray & Hnew).
  assert (Hkept : filterFrom (fun m i => truthy (filter h result m i (messages r))) 0%nat ms
                  = List.filter verdict ms).
  { rewrite <- (filterFrom_by_message verdict 0%nat). apply filterFrom_ext.
    intros m j. apply Hv. }
  rewrite Hkept in Hrun, Hnew.
  eexists _, _, _. split; [exact Hrun|]. split; [exact Harray|]. split; [exact Hnew|].
  repeat split.
Qed.

(** Filtering twice with a filter whose verdict depends on the message
    alone is filtering once: the result of the second call has the
    messages and the five counts of the result of the first. *)
Theorem filterResult_twice (h : heap) (result : loc) (filter : messageFilter)
    (verdict : message -> bool) (r : lintResult) (ms : list message) :
  (forall h' this m i array, truthy (filter h' this m i array) = verdict m) ->
  h !! result = Some (ResultObject r) ->
  h !! messages r = Some (MessageArray ms) ->
  exists first h1 second h2 r1 r2 kept,
    filterResult result filter h = Some (first, h1)
    /\ filterResult first filter h1 = Some (second, h2)
    /\ h2 !! first = Some (ResultObject r1)
    /\ h2 !! second = Some (ResultObject r2)
    /\ h2 !! messages r1 = Some (MessageArray kept)
    /\ h2 !! messages r2 = Some (MessageArray kept)
    /\ errorCount r2 = errorCount r1
    /\ warningCount r2 = warningCount r1
    /\ fixableErrorCount r2 = fixableErrorCount r1
    /\ fixableWarningCount r2 = fixableWarningCount r1
    /\ fatalErrorCount r2 = fatalErrorCount r1.
Proof.
  intros Hv Hr Hms.
  destruct (filterResult_by_message h result filter verdict r ms Hv Hr Hms)
    as (first & array1 & r1 & Hrun1 & Ha1 & Hn1 & Hm1 & _ & He1 & Hw1 & Hfe1 & Hfw1 & Hfa1).
  set (kept := List.filter verdict ms) in *.
  set (h1 := <[first := ResultObject r1]> (<[array1 := MessageArray kept]> h)) in *.
  assert (Hfirst : h1 !! first = Some (ResultObject r1)) by apply lookup_insert_eq.
  assert (Harray1 : h1 !! messages r1 = Some (MessageArray kept)).
  { rewrite Hm1. subst h1.
    rewrite lookup_insert_ne by (intros E; rewrite E, lookup_insert_eq in Hn1; done).
    apply lookup_insert_eq. }
  destruct (filterResult_by_message h1 first filter verdict r1 kept Hv Hfirst Harray1)
    as (second & array2 & r2 & Hrun2 & Ha2 & Hn2 & Hm2 & _ & He2 & Hw2 & Hfe2 & Hfw2 & Hfa2).
  subst kept. rewrite filter_filter in *.
  set (kept := List.filter verdict ms) in *.
  eexists first, h1, second, _, r1, r2, kept.
  split; [exact Hrun1|]. split; [exact Hrun2|].
  split; [by apply two_allocations_keep|].
  split; [apply lookup_insert_eq|].
  split; [by apply two_allocations_keep|].
  split.
  { rewrite Hm2.
    rewrite lookup_insert_ne by (intros E; rewrite E, lookup_insert_eq in Hn2; done).
    apply lookup_insert_eq. }
  repeat split; congruence.
Qed.

Lemma filterResult_twice_witness :
  exists first h1 second h2 r1 r2,
    filterResult 1%positive quietFilter lintedStore = Some (first, h1)
    /\ filterResult first quietFilter h1 = Some (second, h2)
    /\ h2 !! first = Some (ResultObject r1)
    /\ h2 !! second = Some (ResultObject r2)
    /\ errorCount r2 = errorCount r1
    /\ warningCount r2 = warningCount r1.
Proof.
  destruct (filterResult_twice lintedStore 1%positive quietFilter isErrorMessage linted
              [fixableWarning; syntaxError; fixableWarning])
    as (first & h1 & second & h2 & r1 & r2 & kept & H1 & H2 & Hf & Hs & _ & _ & He & Hw & _).
  - reflexivity.
  - reflexivity.
  - reflexivity.
  - exists first, h1, second, h2, r1, r2. repeat split; assumption.
Defined.

Lemma no_warning_among_errors (q : message -> bool) (l : list message) :
  List.filter (fun m => isWarningMessage m && q m) (List.filter isErrorMessage l) = [].
Proof.
  induction l as [|m l IH]; [done|]. simpl.
  destruct (isErrorMessage m) eqn:E; [|done]. simpl.
  pose proof (CountSpec.error_not_warning m) as Hew. rewrite E in Hew. simpl in Hew.
  by rewrite Hew.
Qed.

(** With [isErrorMessage] as the filter, which is how warnings are
    silenced, the result returned has every error of the result given, in
    the same order, and nothing else: no warning is left, and the counts
    of errors, fixable errors and fatal errors are those of the errors
    among the messages given. *)
Theorem filterResult_quiet (h : heap) (result : loc) (r : lintResult)
    (ms : list message) :
  h !! result = Some (ResultObject r) ->
  h !! messages r = Some (MessageArray ms) ->
  exists newResult h' r',
    filterResult result quietFilter h = Some (newResult, h')
    /\ h' !! newResult = Some (ResultObject r')
    /\ h' !! messages r' = Some (MessageArray (filter (fun m => 1 < severity m) ms))
    /\ warningCount r' = 0
    /\ fixableWarningCount r' = 0
    /\ errorCount r' = count (fun m => 1 < severity m) ms
    /\ fixableErrorCount r' = count (fun m => 1 < severity m /\ fix_ m <> VUndef) ms
    /\ fatalErrorCount r'
       = count (fun m => 1 < severity m /\ truthy (fatal m) = true) ms.
Proof.
  intros Hr Hms.
  destruct (filterResult_by_message h result quietFilter isErrorMessage r ms)
    as (newResult & array & r' & Hrun & Ha & Hn & Hm & _ & He & Hw & Hfe & Hfw & Hfa);
    [done..|].
  assert (Hfilter : forall l : list message,
            List.filter isErrorMessage l = filter (fun m => 1 < severity m) l).
  { induction l as [|m l IH]; [done|]. simpl. rewrite filter_cons, IH.
    unfold isErrorMessage. destruct (Z.ltb_spec 1 (severity m)).
    - by rewrite decide_True.
    - rewrite decide_False; [done|lia]. }
  assert (Hcount : forall (p : message -> bool) (P : message -> Prop)
                     `{forall m, Decision (P m)},
            (forall m, isErrorMessage m = true -> (p m = true <-> P m)) ->
            (forall m, isErrorMessage m = false -> p m = false /\ ~ P m) ->
            reduce (fun n m => n + Number (p m)) 0 (List.filter isErrorMessage ms)
            = count P ms).
  { intros p P HP Hyes Hno. rewrite reduce_count. unfold count.
    assert (length (List.filter p (List.filter isErrorMessage ms))
            = length (filter P ms)) as ->; [|lia].
    clear -Hyes Hno. induction ms as [|m ms IH]; [done|].
    simpl. rewrite filter_cons. destruct (isErrorMessage m) eqn:E.
    - simpl. destruct (p m) eqn:Ep.
      + rewrite decide_True by by apply Hyes. simpl. by rewrite IH.
      + rewrite decide_False; [done|]. rewrite <- Hyes by done. congruence.
    - destruct (Hno m E) as [_ HnP]. by rewrite decide_False. }
  eexists _, _, r'. split; [exact Hrun|].
  split; [apply lookup_insert_eq|].
  split.
  { rewrite Hm, <- Hfilter.
    rewrite lookup_insert_ne by (intros E; rewrite E, lookup_insert_eq in Hn; done).
    apply lookup_insert_eq. }
  rewrite Hw, Hfw, He, Hfe, Hfa.
  unfold countErrorMessage, countWarningMessage, countFixableErrorMessage,
    countFixableWarningMessage, countFatalErrorMessage.
  repeat split.
  - rewrite reduce_count.
    rewrite (List.filter_ext isWarningMessage (fun m => isWarningMessage m && true))
      by (intros m; by rewrite andb_true_r).
    by rewrite (no_warning_among_errors (fun _ => true)).
  - rewrite reduce_count.
    by rewrite (no_warning_among_errors (fun m => defined (fix_ m))).
  - apply (Hcount isErrorMessage (fun m => 1 < severity m) _).
    + intros m _. unfold isErrorMessage. apply Z.ltb_lt.
    + intros m E. split; [done|]. unfold isErrorMessage in E. apply Z.ltb_ge in E. lia.
  - apply (Hcount (fun m => isErrorMessage m && defined (fix_ m))
                  (fun m => 1 < severity m /\ fix_ m <> VUndef) _).
    + intros m E. rewrite E. simpl. rewrite defined_spec.
      unfold isErrorMessage in E. apply Z.ltb_lt in E. tauto.
    + intros m E. rewrite E. split; [done|].
      unfold isErrorMessage in E. apply Z.ltb_ge in E. lia.
  - apply (Hcount (fun m => isErrorMessage m && truthy (fatal m))
                  (fun m => 1 < severity m /\ truthy (fatal m) = true) _).
    + intros m E. rewrite E. simpl.
      unfold isErrorMessage in E. apply Z.ltb_lt in E. tauto.
    + intros m E. rewrite E. split; [done|].
      unfold isErrorMessage in E. apply Z.ltb_ge in E. lia.
Qed.

Lemma filterResult_quiet_witness :
  exists newResult h' r',
    filterResult 1%positive quietFilter lintedStore = Some (newResult, h')
    /\ h' !! newResult = Some (ResultObject r')
    /\ h' !! messages r' = Some (MessageArray [syntaxError])
    /\ warningCount r' = 0
    /\ errorCount r' = 1.
Proof.
  destruct (filterResult_quiet lintedStore 1%positive linted
              [fixableWarning; syntaxError; fixableWarning])
    as (newResult & h' & r' & Hrun & Hres & Hms & Hw & _ & He & _).
  - reflexivity.
  - reflexivity.
  - exists newResult, h', r'. split; [exact Hrun|]. split; [exact Hres|].
    split; [exact Hms|]. split; [exact Hw|exact He].
Defined.

End FilterAgainSpec.

Module IgnoredQuietSpec.
Import Results ResultsFacts FilterSpec FilterAgainSpec PathFacts.

(** An ignored file under [quiet]: filtering the result synthesized for
    an ignored file with [isErrorMessage] gives a result for the same
    file with no message at all, and with every count at 0. *)
Theorem ignored_result_quiet (relative : string -> string -> string)
    (path baseDir : string) (h : heap) :
  exists ignored h1 quieted h2 r',
    createIgnoreResult relative path baseDir h = (ignored, h1)
    /\ filterResult ignored quietFilter h1 = Some (quieted, h2)
    /\ h2 !! quieted = Some (ResultObject r')
    /\ h2 !! messages r' = Some (MessageArray [])
    /\ filePath r' = path
    /\ errorCount r' = 0 /\ warningCount r' = 0
    /\ fixableErrorCount r' = 0 /\ fixableWarningCount r' = 0
    /\ fatalErrorCount r' = 0.
Proof.
  unfold createIgnoreResult.
  destruct (alloc h _) as [array h0] eqn:H0.
  destruct (alloc h0 _) as [ignored h1] eqn:H1.
  pose proof (alloc_spec _ _ _ _ H0) as [Harray ->].
  pose proof (alloc_spec _ _ _ _ H1) as [Hignored ->].
  match goal with
  | |- context [<[ignored := ResultObject ?R]> (<[array := MessageArray ?M]> h)] =>
      set (r := R); set (ms := M)
  end.
  set (h1 := <[ignored := ResultObject r]> (<[array := MessageArray ms]> h)).
  destruct (filterResult_by_message h1 ignored quietFilter isErrorMessage r ms)
    as (quieted & array' & r' & Hrun & Ha & Hn & Hm & Hpath & He & Hw & Hfe & Hfw & Hfa).
  - done.
  - apply lookup_insert_eq.
  - subst h1 r. cbn [messages].
    rewrite lookup_insert_ne by (intros E; rewrite E, lookup_insert_eq in Hignored; done).
    apply lookup_insert_eq.
  - exists ignored, h1, quieted. eexists _, r'.
    split; [reflexivity|]. split; [exact Hrun|].
    split; [apply lookup_insert_eq|].
    split.
    { rewrite Hm.
      rewrite lookup_insert_ne by (intros E; rewrite E, lookup_insert_eq in Hn; done).
      apply lookup_insert_eq. }
    split; [exact Hpath|].
    rewrite He, Hw, Hfe, Hfw, Hfa. repeat split.
Qed.

(** The expression that finds a hidden path matches exactly the paths
    with a segment that starts with a dot which no second dot follows:
    [..] is let through, and so is any other segment that starts with two
    dots. *)
Theorem isHiddenRegExp_exact (path : string) :
  isHiddenRegExp path = true
  <-> exists segment, segment ∈ segments path
                      /\ exists after, segment = String dot after
                                       /\ startsWithDot after = false.
Proof.
  rewrite isHiddenRegExp_segments, existsb_exists. split.
  - intros (segment & Hin & Hh). exists segment. split; [by apply list_elem_of_In|].
    destruct segment as [|c after]; [done|]. simpl in Hh.
    apply andb_true_iff in Hh as [Hc Hd]. apply Ascii.eqb_eq in Hc as ->.
    exists after. split; [done|]. by apply negb_true_iff.
  - intros (segment & Hin & after & -> & Hafter). exists (String dot after).
    split; [by apply list_elem_of_In|]. simpl. by rewrite Hafter.
Qed.

(** The expression that finds a [node_modules] directory matches exactly
    the paths with a segment [node_modules] that is not the last one. *)
Theorem isInNodeModulesRegExp_exact (path : string) :
  isInNodeModulesRegExp path = true <-> "node_modules" ∈ directories path.
Proof.
  rewrite isInNodeModulesRegExp_directories, existsb_exists. unfold isNodeModules. split.
  - intros (segment & Hin & ->%String.eqb_eq). by apply list_elem_of_In.
  - intros Hin. exists "node_modules". split; [by apply list_elem_of_In|done].
Qed.

Lemma segments_parent path :
  segments ("../" ++ path) = ".." :: segments path.
Proof. reflexivity. Qed.

(** A file outside the base directory: the leading [..] of its relative
    path count for nothing in the reason, which is the one of the path
    that follows them. *)
Theorem ignoreReason_parent (relative : string -> string -> string)
    (path baseDir below : string) :
  relative baseDir path = "../" ++ below ->
  ignoreReason relative path baseDir
  = ignoreReason (fun _ _ => below) path baseDir.
Proof.
  intros Hrel. unfold ignoreReason. rewrite Hrel.
  rewrite !isHiddenRegExp_segments, !isInNodeModulesRegExp_directories.
  unfold directories. rewrite segments_parent. simpl existsb.
  destruct (segments below) as [|segment others] eqn:E;
    [by apply segments_nonempty in E|].
  reflexivity.
Qed.

Lemma ignoreReason_parent_witness :
  ignoreReason (fun _ _ => "../../node_modules/pkg/a.js") "/node_modules/pkg/a.js"
    "/project/src"
  = nodeModulesMessage.
Proof.
  rewrite (ignoreReason_parent _ _ _ "../node_modules/pkg/a.js") by reflexivity.
  rewrite (ignoreReason_parent _ _ _ "node_modules/pkg/a.js") by reflexivity.
  reflexivity.
Defined.

End IgnoredQuietSpec.

Module ComparatorSpec.
Import Results Formatter OrderFacts SortFacts FormatterFacts.

Lemma compare_cases (s1 s2 : string) :
  (String.compare s1 s2 = Eq /\ s1 = s2)
  \/ (String.compare s1 s2 = Lt /\ String.compare s2 s1 = Gt)
  \/ (String.compare s1 s2 = Gt /\ String.compare s2 s1 = Lt).
Proof.
  pose proof (String.compare_antisym s1 s2) as H.
  destruct (String.compare s1 s2) eqn:E.
  - left. split; [done|]. by apply String.compare_eq_iff.
  - right. left. split; [done|]. destruct (String.compare s2 s1); simpl in H; congruence.
  - right. right. split; [done|].
    destruct (String.compare s2 s1); simpl in H; congruence.
Qed.

Lemma compare_refl (s : string) : String.compare s s = Eq.
Proof.
  pose proof (String.compare_antisym s s) as H.
  destruct (String.compare s s); simpl in H; congruence.
Qed.

(** [compareResultsByFilePath] is a comparison a sort can rely on: its
    value is -1, 0 or 1; exchanging the two results changes its sign; it
    is 0 exactly when the two file paths are the same; and it is
    transitive. *)
Theorem compareResultsByFilePath_consistent (a b c : lintResult) :
  compareResultsByFilePath a b ∈ [-1; 0; 1]
  /\ compareResultsByFilePath b a = - compareResultsByFilePath a b
  /\ (compareResultsByFilePath a b = 0 <-> filePath a = filePath b)
  /\ (compareResultsByFilePath a b <= 0 -> compareResultsByFilePath b c <= 0 ->
      compareResultsByFilePath a c <= 0).
Proof.
  unfold compareResultsByFilePath, String.ltb.
  split; [|split; [|split]].
  - apply list_elem_of_In.
    destruct (String.compare (filePath b) (filePath a)),
      (String.compare (filePath a) (filePath b)); simpl; lia.
  - destruct (compare_cases (filePath a) (filePath b)) as [[-> E]|[[-> ->]|[-> ->]]];
      [|done..].
    rewrite E, compare_refl. done.
  - destruct (compare_cases (filePath a) (filePath b)) as [[H1 E]|[[H1 H2]|[H1 H2]]].
    + rewrite E, compare_refl. done.
    + rewrite H1, H2. split; [done|]. intros E. rewrite E, compare_refl in H1. discriminate.
    + rewrite H1, H2. split; [done|]. intros E. rewrite E, compare_refl in H1. discriminate.
  - intros Hab Hbc.
    assert (Hle : forall x y : lintResult,
              (if match String.compare (filePath y) (filePath x) with
                  | Lt => true
                  | _ => false
                  end then 1
               else if match String.compare (filePath x) (filePath y) with
                       | Lt => true
                       | _ => false
                       end then -1 else 0) <= 0
              <-> (filePath x <=? filePath y)%string = true).
    { intros x y. unfold String.leb.
      destruct (compare_cases (filePath x) (filePath y)) as [[-> E]|[[-> ->]|[-> ->]]];
        [rewrite E, compare_refl|..]; split; (done || lia). }
    apply Hle. apply Hle in Hab, Hbc. by eapply string_leb_trans.
Qed.

End ComparatorSpec.

Module FormatAgainSpec.
Import Results Formatter OrderFacts SortFacts FormatterFacts.

Lemma insertInOrder_least {A} (key : A -> string) x (l : list A) :
  Forall (keyOrdered key x) l -> insertInOrder (byKey key) x l = x :: l.
Proof.
  destruct 1 as [|y l Hxy _]; simpl; [done|].
  rewrite byKey_positive. unfold keyOrdered, String.leb in Hxy. unfold String.ltb.
  rewrite String.compare_antisym. by destruct (String.compare (key x) (key y)).
Qed.

Lemma sort_sorted_id {A} (key : A -> string) (l : list A) :
  StronglySorted (keyOrdered key) l -> sort (byKey key) l = l.
Proof.
  induction 1 as [|x l Hl IH Hx]; simpl; [done|].
  rewrite IH. by apply insertInOrder_least.
Qed.

Section Engine.

Variable getRulesMetaForResults : heap -> loc -> value.
Variable body : value -> heap -> loc -> formatting.

Lemma resolve_objects (h : heap) (refs : list loc) :
  Forall (fun ref => is_Some (resultAt h ref)) refs ->
  exists objects : list (loc * lintResult),
    mapM (fun ref => pair ref <$> resultAt h ref) refs = Some objects
    /\ objects.*1 = refs
    /\ Forall (fun a : loc * lintResult => filePath a.2 = pathAt h a.1) objects.
Proof.
  induction 1 as [|ref refs [r Hr] _ (objects & Hm & Hfst & Hkey)].
  - exists []. by repeat split.
  - exists ((ref, r) :: objects). split; [|split].
    + apply mapM_Some_2. constructor.
      * by rewrite Hr.
      * by apply mapM_Some_1.
    + by rewrite fmap_cons, Hfst.
    + constructor; [|done]. unfold pathAt. simpl. by rewrite Hr.
Qed.

Lemma StronglySorted_fst {B} (key : loc -> string) (objects : list (loc * B)) :
  StronglySorted (keyOrdered key) (objects.*1) ->
  StronglySorted (keyOrdered (fun a : loc * B => key a.1)) objects.
Proof.
  induction objects as [|a objects IH]; [constructor|].
  rewrite fmap_cons. intros [Hs Hall]%StronglySorted_inv.
  constructor; [by apply IH|]. by rewrite Forall_fmap in Hall.
Qed.

(** An array that is ordered already is not changed by the sort. *)
Lemma sortResults_ordered (h : heap) results refs :
  resultsAt h results = Some refs ->
  Forall (fun ref => is_Some (resultAt h ref)) refs ->
  StronglySorted (keyOrdered (pathAt h)) refs ->
  sortResults results h = Some h.
Proof.
  intros Hrefs Hall Hsorted.
  destruct (resolve_objects h refs Hall) as (objects & Hm & Hfst & Hkey).
  unfold sortResults. rewrite Hrefs. simpl. rewrite Hm. simpl.
  assert (Hsort : sort (fun a b => compareResultsByFilePath a.2 b.2) objects
                  = sort (byKey (fun a : loc * lintResult => pathAt h a.1)) objects).
  { exact (sort_ext (fun a : loc * lintResult => filePath a.2) _ objects Hkey). }
  rewrite Hsort, sort_sorted_id, Hfst.
  - f_equal. apply insert_id. unfold resultsAt in Hrefs.
    destruct (h !! results) as [[| |rs]|]; try done. by injection Hrefs as ->.
  - apply StronglySorted_fst. by rewrite Hfst.
Qed.

Lemma result_after_sort (h : heap) results refs elements ref :
  resultsAt h results = Some refs ->
  is_Some (resultAt h ref) ->
  resultAt (<[results := ResultArray elements]> h) ref = resultAt h ref.
Proof.
  intros Hrefs [r Hr]. unfold resultAt, resultsAt in *.
  destruct (decide (results = ref)) as [->|Hne].
  - destruct (h !! ref) as [[| |]|]; done.
  - by rewrite lookup_insert_ne.
Qed.

Lemma StronglySorted_keys {A} (key1 key2 : A -> string) (l : list A) :
  Forall (fun a => key1 a = key2 a) l ->
  StronglySorted (keyOrdered key1) l -> StronglySorted (keyOrdered key2) l.
Proof.
  intros Hkeys Hs. induction Hs as [|x l Hs IH Hx]; [constructor|].
  apply Forall_cons_1 in Hkeys as [Hk Hkeys]. constructor; [by apply IH|].
  rewrite Forall_forall in *. intros y Hy. unfold keyOrdered in *.
  rewrite <- Hk, <- (Hkeys y Hy). by apply Hx.
Qed.

Lemma format_ordered (h : heap) dir formatter results refs lookups :
  resultsAt h results = Some refs ->
  Forall (fun ref => is_Some (resultAt h ref)) refs ->
  StronglySorted (keyOrdered (pathAt h)) refs ->
  format getRulesMetaForResults body dir formatter results h lookups
  = Some (answer (getRulesMetaForResults h results) dir (body formatter h results), h,
          if readsRulesMeta dir (body formatter h results) then S lookups else lookups).
Proof.
  intros Hrefs Hall Hsorted. unfold format.
  rewrite (sortResults_ordered h results refs Hrefs Hall Hsorted). simpl.
  destruct (call_getter getRulesMetaForResults h results (body formatter h results)
              dir lookups) as [ctx ->].
  done.
Qed.

(** An array that is ordered by file path already is left as it is by
    the [format] of the wrapper: the store after the call is the store
    before it. *)
Theorem format_ordered_unchanged (dir : string) (formatter : value)
    (h : heap) (results : loc) (refs : list loc) (lookups : nat) :
  resultsAt h results = Some refs ->
  Forall (fun ref => is_Some (resultAt h ref)) refs ->
  StronglySorted (fun a b => (pathAt h a <=? pathAt h b)%string = true) refs ->
  exists output lookups',
    format getRulesMetaForResults body dir formatter results h lookups
    = Some (output, h, lookups').
Proof.
  intros Hrefs Hall Hsorted. eexists _, _.
  by apply (format_ordered h dir formatter results refs).
Qed.

(** Calling the [format] of the wrapper a second time on the same array
    changes nothing more and gives the same output, but asks the engine
    again: the metadata is cached in the context of one call, and a
    function that reads it costs one lookup in each call. *)
Theorem format_twice (dir : string) (formatter : value)
    (h : heap) (results : loc) (refs : list loc) (lookups : nat) :
  resultsAt h results = Some refs ->
  Forall (fun ref => is_Some (resultAt h ref)) refs ->
  exists output h1 once twice,
    format getRulesMetaForResults body dir formatter results h lookups
    = Some (output, h1, once)
    /\ format getRulesMetaForResults body dir formatter results h1 once
       = Some (output, h1, twice)
    /\ (twice - once = once - lookups)%nat
    /\ (readsRulesMeta dir (body formatter h1 results) = true ->
        once = S lookups /\ twice = S (S lookups)).
Proof.
  intros Hrefs Hall.
  destruct (format_run getRulesMetaForResults body h dir formatter results refs lookups
              Hrefs Hall) as (sorted & Hrun & Hperm & Hsorted & _).
  cbv zeta in Hrun.
  set (h1 := <[results := ResultArray sorted]> h) in *.
  assert (Hall1 : Forall (fun ref => is_Some (resultAt h ref)) sorted).
  { by rewrite Hperm. }
  assert (Hsame : Forall (fun ref => resultAt h1 ref = resultAt h ref) sorted).
  { eapply Forall_impl; [exact Hall1|]. intros ref Href.
    by apply (result_after_sort h results refs). }
  assert (Hrefs1 : resultsAt h1 results = Some sorted).
  { unfold resultsAt. subst h1. by rewrite lookup_insert_eq. }
  assert (Hall2 : Forall (fun ref => is_Some (resultAt h1 ref)) sorted).
  { rewrite Forall_forall in *. intros ref Href. rewrite (Hsame ref Href). by apply Hall1. }
  assert (Hsorted1 : StronglySorted (keyOrdered (pathAt h1)) sorted).
  { apply (StronglySorted_keys (pathAt h)); [|done].
    eapply Forall_impl; [exact Hsame|]. intros ref Href. unfold pathAt. by rewrite Href. }
  exists (answer (getRulesMetaForResults h1 results) dir (body formatter h1 results)), h1.
  eexists _, _. split; [exact Hrun|].
  split; [by apply (format_ordered h1 dir formatter results sorted)|].
  destruct (readsRulesMeta dir (body formatter h1 results)).
  - split; [lia|]. by intros _.
  - split; [lia|]. discriminate.
Qed.

End Engine.

End FormatAgainSpec.

Module FormatAgainWitness.
Import Results Formatter FormatAgainSpec.

Lemma format_ordered_unchanged_witness :
  exists output lookups',
    format (fun _ _ => VStr "meta") metaTwice "/project" (VFun "byLine" ∅)
      5%positive (<[5%positive := ResultArray [3%positive; 1%positive]]> collected) 0
    = Some (output, <[5%positive := ResultArray [3%positive; 1%positive]]> collected,
            lookups').
Proof.
  apply (format_ordered_unchanged (fun _ _ => VStr "meta") metaTwice "/project"
           (VFun "byLine" ∅) _ 5%positive [3%positive; 1%positive] 0%nat).
  - reflexivity.
  - repeat constructor; by eexists.
  - repeat constructor.
Defined.

Lemma format_twice_witness :
  exists output h1 once twice,
    format (fun _ _ => VStr "meta") metaTwice "/project" (VFun "byLine" ∅)
      5%positive collected 0 = Some (output, h1, once)
    /\ format (fun _ _ => VStr "meta") metaTwice "/project" (VFun "byLine" ∅)
         5%positive h1 once = Some (output, h1, twice)
    /\ once = 1%nat /\ twice = 2%nat.
Proof.
  destruct (format_twice (fun _ _ => VStr "meta") metaTwice "/project" (VFun "byLine" ∅)
              collected 5%positive [1%positive; 3%positive] 0%nat)
    as (output & h1 & once & twice & H1 & H2 & _ & Hreads).
  - reflexivity.
  - repeat constructor; by eexists.
  - exists output, h1, once, twice. split; [exact H1|]. split; [exact H2|].
    apply Hreads. reflexivity.
Defined.

End FormatAgainWitness.

Module WriterSpec.
Import Results Formatter FormatterFacts Writer.

(** [writeResults] calls the writer at most once, with what the
    formatter returned, and never with [null], [undefined] or the empty
    string; the store it leaves is the one the formatter left. *)
Theorem writeResults_at_most_once
    (format : loc -> heap -> nat -> option (value * heap * nat))
    (results : loc) (writer : writerFunction) (h : heap) (lookups : nat)
    (calls : list written) (h' : heap) (lookups' : nat) :
  writeResults format results writer h lookups = Some (calls, h', lookups') ->
  exists message,
    format results h lookups = Some (message, h', lookups')
    /\ (calls = [] \/ calls = [Written writer message])
    /\ (calls = [Written writer message] ->
        nullish message = false /\ message <> VStr EmptyString /\ callable writer = true)
    /\ (calls = [] ->
        truthyWriter writer = false \/ nullish message = true \/ message = VStr EmptyString).
Proof.
  unfold writeResults.
  destruct (format results h lookups) as [[[message h1] n1]|] eqn:E; [|done]. simpl.
  destruct (truthyWriter writer) eqn:Hw; simpl.
  - destruct (nullish message) eqn:Hn; simpl.
    + intros [= <- <- <-]. exists message. repeat split; try done; auto.
    + destruct (isEmptyString message) eqn:He; simpl.
      * intros [= <- <- <-]. exists message. repeat split; try done; auto.
        intros _. right. right. destruct message; try done.
        simpl in He. by apply String.eqb_eq in He as ->.
      * destruct (callable writer) eqn:Hc; [|done].
        intros [= <- <- <-]. exists message. repeat split; try done; auto.
        intros ->. simpl in He. discriminate.
  - intros [= <- <- <-]. exists message. repeat split; try done; auto.
Qed.

Lemma writeResults_at_most_once_witness :
  exists message,
    format (fun _ _ => VStr "meta") metaTwice "/project" (VFun "byLine" ∅)
      5%positive collected 0
    = Some (message, <[5%positive := ResultArray [3%positive; 1%positive]]> collected,
            1%nat)
    /\ nullish message = false.
Proof.
  destruct (writeResults_at_most_once
              (format (fun _ _ => VStr "meta") metaTwice "/project" (VFun "byLine" ∅))
              5%positive (BoundWrite (VFun "write" ∅) (VObj ∅)) collected 0%nat
              [Written (BoundWrite (VFun "write" ∅) (VObj ∅))
                 (VArr [VStr "meta"; VStr "/project"; VStr "meta"])]
              (<[5%positive := ResultArray [3%positive; 1%positive]]> collected) 1%nat)
    as (message & Hformat & _ & Hwritten & _).
  - vm_compute. reflexivity.
  - exists message. split; [exact Hformat|].
    assert (Hcomputed :
              format (fun _ _ => VStr "meta") metaTwice "/project" (VFun "byLine" ∅)
                5%positive collected 0
              = Some (VArr [VStr "meta"; VStr "/project"; VStr "meta"],
                      <[5%positive := ResultArray [3%positive; 1%positive]]> collected,
                      1%nat)) by (vm_compute; reflexivity).
    rewrite Hcomputed in Hformat. injection Hformat as <-. reflexivity.
Defined.

(** The default writer stands in for [undefined] only.  A writer that
    is [null], [false], [0] or the empty string is returned as it is by
    [resolveWriter], and [writeResults] with it never writes, whatever
    the formatter returns, though the formatter is still called; with
    [undefined], [fancyLog] is the writer (a function without a [write]
    method of its own) and it is called whenever the formatter returns
    something other than [null], [undefined] and the empty string. *)
Theorem writer_default_and_falsy (fancyLog : value)
    (format : loc -> heap -> nat -> option (value * heap * nat))
    (results : loc) (h : heap) (lookups : nat) :
  typeof fancyLog = TFunction ->
  typeof (getProp fancyLog "write") <> TFunction ->
  (forall writer, defined writer = true -> truthy writer = false ->
     resolveWriter fancyLog writer = Itself writer
     /\ writeResults format results (resolveWriter fancyLog writer) h lookups
        = (fun out : value * heap * nat => ([], out.1.2, out.2))
            <$> format results h lookups)
  /\ resolveWriter fancyLog VUndef = Itself fancyLog
  /\ (forall message h' lookups',
        format results h lookups = Some (message, h', lookups') ->
        nullish message = false -> message <> VStr EmptyString ->
        writeResults format results (resolveWriter fancyLog VUndef) h lookups
        = Some ([Written (Itself fancyLog) message], h', lookups')).
Proof.
  intros Hfun Hwrite.
  assert (Hdefault : resolveWriter fancyLog VUndef = Itself fancyLog).
  { unfold resolveWriter. simpl. destruct fancyLog; try done. simpl in *.
    by destruct (typeof (get props "write")). }
  split; [|split; [exact Hdefault|]].
  - intros writer Hdef Hfalsy.
    assert (Hitself : resolveWriter fancyLog writer = Itself writer).
    { unfold resolveWriter. rewrite Hdef. by destruct writer. }
    split; [exact Hitself|]. rewrite Hitself. unfold writeResults.
    destruct (format results h lookups) as [[[message h1] n1]|]; [|done].
    simpl. by rewrite Hfalsy.
  - intros message h' lookups' Hformat Hnull Hempty. rewrite Hdefault.
    unfold writeResults. rewrite Hformat. simpl. rewrite Hnull. simpl.
    assert (truthy fancyLog = true) as -> by by destruct fancyLog.
    assert (isEmptyString message = false) as ->.
    { destruct message; try done. simpl. apply String.eqb_neq. congruence. }
    simpl. by rewrite Hfun.
Qed.

Lemma writer_default_and_falsy_witness :
  resolveWriter (VFun "fancyLog" ∅) VNull = Itself VNull
  /\ resolveWriter (VFun "fancyLog" ∅) VUndef = Itself (VFun "fancyLog" ∅).
Proof.
  destruct (writer_default_and_falsy (VFun "fancyLog" ∅)
              (format (fun _ _ => VStr "meta") metaTwice "/project" (VFun "byLine" ∅))
              5%positive collected 0%nat) as (Hfalsy & Hdefault & _).
  - reflexivity.
  - discriminate.
  - split; [|exact Hdefault]. apply Hfalsy; reflexivity.
Defined.

Section Engine.

Variable getRulesMetaForResults : heap -> loc -> value.
Variable body : value -> heap -> loc -> formatting.

(** Writing through a wrapped formatter function sorts the caller's
    array whether or not anything is written: whenever [writeResults]
    returns, the array holds its references ordered by file path, also
    when there is no writer or the output is empty. *)
Theorem writeResults_sorts (dir : string) (formatter : value)
    (writer : writerFunction) (h : heap) (results : loc) (refs : list loc)
    (lookups : nat) (calls : list written) (h' : heap) (lookups' : nat) :
  resultsAt h results = Some refs ->
  Forall (fun ref => is_Some (resultAt h ref)) refs ->
  writeResults (format getRulesMetaForResults body dir formatter)
    results writer h lookups = Some (calls, h', lookups') ->
  exists sorted,
    resultsAt h' results = Some sorted
    /\ sorted ≡ₚ refs
    /\ StronglySorted (fun a b => (pathAt h a <=? pathAt h b)%string = true) sorted
    /\ (forall l, l <> results -> h' !! l = h !! l).
Proof.
  intros Hrefs Hall Hrun.
  destruct (format_run getRulesMetaForResults body h dir formatter results refs lookups
              Hrefs Hall) as (sorted & Hformat & Hperm & Hsorted & _).
  cbv zeta in Hformat. unfold writeResults in Hrun. rewrite Hformat in Hrun.
  simpl in Hrun.
  assert (h' = <[results := ResultArray sorted]> h) as ->.
  { destruct (truthyWriter writer && _ && _); [destruct (callable writer)|];
      congruence. }
  exists sorted. split; [unfold resultsAt; by rewrite lookup_insert_eq|].
  split; [exact Hperm|]. split; [exact Hsorted|].
  intros l Hl. by rewrite lookup_insert_ne.
Qed.

End Engine.

Lemma writeResults_sorts_witness :
  exists sorted,
    resultsAt (<[5%positive := ResultArray [3%positive; 1%positive]]> collected) 5%positive
    = Some sorted
    /\ sorted ≡ₚ [1%positive; 3%positive].
Proof.
  destruct (writeResults_sorts (fun _ _ => VStr "meta") metaTwice "/project"
              (VFun "byLine" ∅) (Itself VNull) collected 5%positive
              [1%positive; 3%positive] 0%nat []
              (<[5%positive := ResultArray [3%positive; 1%positive]]> collected) 1%nat)
    as (sorted & Hat & Hperm & _).
  - reflexivity.
  - repeat constructor; by eexists.
  - vm_compute. reflexivity.
  - exists sorted. split; [exact Hat|exact Hperm].
Defined.

End WriterSpec.

Module ErrorOutcomeSpec.
Import Errors ErrorFacts.

(** What [createPluginError] does on every value.  A [PluginError] is
    returned as it is, so what [createPluginError] returns it returns
    again when given it; [null] and [undefined] give the message "Unknown
    Error" with [showStack] on; an [Error], and a value that is no
    object, give a [PluginError] with that message and [showStack] on
    exactly when the message is truthy; a plain object gives [showStack]
    as the object has it, off when it has none.  Whatever is made anew
    has the plugin's name and a truthy message, and the only failures
    are the plain [Error] for a missing message and the [TypeError] of
    an object whose [error] is [null]. *)
Theorem createPluginError_outcomes (reason : thrown) :
  (forall p, reason = Tagged p -> createPluginError reason = Returned p)
  /\ (forall v, reason = Other v -> nullish v = true ->
        createPluginError reason
        = Returned {| plugin := VStr "gulp-eslint-new";
                      message := VStr "Unknown Error"; showStack := VBool true |})
  /\ (forall m, reason = ErrorObject m ->
        createPluginError reason
        = if truthy m
          then Returned {| plugin := VStr "gulp-eslint-new"; message := m;
                           showStack := VBool true |}
          else Thrown (PlainError "Missing error message"))
  /\ (forall v, reason = Other v -> nullish v = false -> typeof v <> TObject ->
        createPluginError reason
        = if truthy v
          then Returned {| plugin := VStr "gulp-eslint-new"; message := v;
                           showStack := VBool true |}
          else Thrown (PlainError "Missing error message"))
  /\ (forall props p, reason = Other (VObj props) ->
        createPluginError reason = Returned p ->
        showStack p = default (VBool false) (props !! "showStack"))
  /\ (forall p, createPluginError reason = Returned p ->
        createPluginError (Tagged p) = Returned p
        /\ (isPluginError reason = false ->
            plugin p = VStr "gulp-eslint-new" /\ truthy (message p) = true))
  /\ (forall f, createPluginError reason = Thrown f ->
        isPluginError reason = false
        /\ (f = PlainError "Missing error message" \/ f = PlainTypeError)).
Proof.
  split; [by intros p ->|].
  split; [by intros v -> Hv; destruct v|].
  split.
  { intros m ->. unfold createPluginError.
    by apply (newPluginError_wrapped (ErrorObject m) m). }
  split.
  { intros v -> Hnull Htype. unfold createPluginError. rewrite Hnull.
    by apply (newPluginError_wrapped (Other v) v). }
  split.
  { intros props p ->. unfold createPluginError, newPluginError. simpl nullish. cbv iota.
    destruct (setDefaults _ _ _) as [[opts error]|] eqn:E; [|done].
    apply setDefaults_lookups in E as (_ & chosen & _ & Hs & -> & _).
    assert (Hshow : get opts "showStack" = default (VBool false) (props !! "showStack"))
      by (unfold get; by rewrite Hs).
    destruct error; [|done|]; cbv zeta; cbn [plugin message]; rewrite Hshow;
      repeat match goal with
             | |- context [if negb ?b then _ else _] => destruct b; simpl; try done
             end; by intros [= <-]. }
  split.
  { intros p Hp. split; [done|]. intros Hnot.
    destruct reason as [e|m|v]; [done| |]; unfold createPluginError in Hp.
    - by apply newPluginError_Returned in Hp.
    - by apply newPluginError_Returned in Hp. }
  intros f Hf. destruct reason as [e|m|v]; [done| |]; (split; [done|]);
    unfold createPluginError in Hf; by apply newPluginError_Thrown in Hf.
Qed.

(** [awaitHandler] ends in one of three ways.  [done(null, data)] is
    the end of a handler that is fulfilled, and of no other.  An error
    reaches [done] only from a handler that throws or rejects, and it is
    a [PluginError] then: the one thrown, or one with the plugin's name
    and a truthy message.  When [createPluginError] throws (never for a
    [PluginError]) [done] is not called, and the promise of
    [awaitHandler] is rejected with what it threw. *)
Theorem awaitHandler_endings {A : Type} (handler : settled) (data : A) :
  (awaitHandler handler data = DoneData data <-> handler = Fulfilled)
  /\ (forall d, awaitHandler handler data = DoneData d -> d = data)
  /\ (forall error, awaitHandler handler data = DoneError error ->
        exists reason,
          handler = Rejected reason
          /\ createPluginError reason = Returned error
          /\ (reason = Tagged error
              \/ plugin error = VStr "gulp-eslint-new"
                 /\ truthy (message error) = true))
  /\ (forall f, awaitHandler handler data = PromiseRejected f ->
        exists reason,
          handler = Rejected reason
          /\ isPluginError reason = false
          /\ createPluginError reason = Thrown f
          /\ (f = PlainError "Missing error message" \/ f = PlainTypeError)).
Proof.
  destruct handler as [|reason]; simpl.
  - repeat split; try done. by intros d [= <-].
  - destruct (createPluginError reason) as [p|f] eqn:E.
    + split; [split; done|]. split; [done|]. split; [|done].
      intros error [= <-]. exists reason. split; [done|]. split; [done|].
      destruct reason as [e|m|v].
      * left. simpl in E. congruence.
      * right. unfold createPluginError in E. by apply newPluginError_Returned in E.
      * right. unfold createPluginError in E. by apply newPluginError_Returned in E.
    + split; [split; done|]. split; [done|]. split; [done|].
      intros f' [= <-]. exists reason.
      destruct reason as [e|m|v]; [done| |]; (split; [done|]); (split; [done|]);
        (split; [done|]); unfold createPluginError in E;
        by apply newPluginError_Thrown in E.
Qed.

End ErrorOutcomeSpec.
